(** * Solar-tracking canopy controller (main.c): shallow embedding and
      verification of the decision pipeline and of the control cycle.

    The C program runs on a 32-bit target (ESP32): every [int] is modelled
    as a [Z] kept in the range [INT_MIN, INT_MAX], and every arithmetic
    operation of the source is followed by the two's-complement wrap-around
    of the target's instructions (the C standard leaves signed overflow
    undefined). *)

From Stdlib Require Import ZArith Lia List String Ascii Bool.
Import ListNotations.
Local Open Scope Z_scope.

(* ================================================================== *)
(** ** 32-bit [int] arithmetic *)

Module Int.

Definition INT_MIN : Z := -2147483648.
Definition INT_MAX : Z := 2147483647.

(** The values an [int] can hold. *)
Definition in_int (z : Z) : Prop := INT_MIN <= z <= INT_MAX.

(** Two's-complement reduction of a mathematical integer to an [int]. *)
Definition wrap (z : Z) : Z := (z + 2147483648) mod 4294967296 - 2147483648.

Definition add (a b : Z) : Z := wrap (a + b).
Definition sub (a b : Z) : Z := wrap (a - b).
Definition mul (a b : Z) : Z := wrap (a * b).
Definition neg (a : Z) : Z := wrap (- a).
(** C division truncates toward zero. *)
Definition div (a b : Z) : Z := wrap (Z.quot a b).

End Int.

(* ================================================================== *)
(** ** Configuration macros of main.c *)

Definition THINGSPEAK_API_KEY : string := "JA0W2AWRBR5KH8ZF".

Definition SERVO_MIN_US : Z := 500.
Definition SERVO_MAX_US : Z := 2400.
Definition SERVO_PERIOD_US : Z := 20000.
Definition SERVO_MAX_DUTY : Z := 8191.

Definition SUN_EAST : Z := 0.
Definition SUN_OVERHEAD : Z := 1.
Definition SUN_WEST : Z := 2.

Definition LDR_THRESHOLD : Z := 150.

(* ================================================================== *)
(** ** Pure functions of the decision pipeline *)

(** [clamp_int], main.c:117-121. *)
Definition clamp_int (v lo hi : Z) : Z :=
  if v <? lo then lo
  else if v >? hi then hi
  else v.

(** The arithmetic of [set_servo_angle], main.c:125-130, with the four
    macros SERVO_MIN_US, SERVO_MAX_US, SERVO_PERIOD_US and SERVO_MAX_DUTY
    taken as parameters. *)
Section ServoArithmetic.

Variables min_pulse_us max_pulse_us period_us max_duty : Z.

(** [int pulse_width_us = MIN + (angle * (MAX - MIN)) / 180;] *)
Definition pulse_width_us (angle : Z) : Z :=
  Int.add min_pulse_us
    (Int.div (Int.mul angle (Int.sub max_pulse_us min_pulse_us)) 180).

(** [int duty = (pulse_width_us * MAX_DUTY) / PERIOD;] *)
Definition duty_of_pulse (pulse : Z) : Z :=
  Int.div (Int.mul pulse max_duty) period_us.

(** Clamp, interpolate, scale: the value handed to [ledc_set_duty]. *)
Definition to_pulse (angle : Z) : Z :=
  let angle := clamp_int angle 0 180 in
  duty_of_pulse (pulse_width_us angle).

End ServoArithmetic.

(** The pulse width and the duty that [set_servo_angle] computes with the
    macros of main.c. *)
Definition servo_pulse_width_us (angle : Z) : Z :=
  pulse_width_us SERVO_MIN_US SERVO_MAX_US (clamp_int angle 0 180).

Definition servo_duty (angle : Z) : Z :=
  to_pulse SERVO_MIN_US SERVO_MAX_US SERVO_PERIOD_US SERVO_MAX_DUTY angle.

(** [detect_sun_direction], main.c:169-182, with the macro LDR_THRESHOLD
    taken as the parameter [threshold]. *)
Definition classify (threshold east west : Z) : Z :=
  let horizontal_diff := Int.sub east west in
  if horizontal_diff >? threshold then SUN_EAST
  else if horizontal_diff <? Int.neg threshold then SUN_WEST
  else SUN_OVERHEAD.

Definition detect_sun_direction (east west : Z) : Z :=
  classify LDR_THRESHOLD east west.

(** [compute_tilt_angle], main.c:185-196: a [switch] over an [int] whose
    [default] label shares the branch of SUN_OVERHEAD. *)
Definition compute_tilt_angle (sun_direction : Z) : Z :=
  if sun_direction =? SUN_EAST then 30
  else if sun_direction =? SUN_WEST then 150
  else 90.

(* ================================================================== *)
(** ** Text formatting: the [%d] conversion and [snprintf] *)

Definition digit_char (d : Z) : ascii := ascii_of_N (Z.to_N (48 + d)).

(** Decimal digits of a non-negative number, most significant first.  An
    [int] has at most ten digits, which is the fuel [fmt_d] gives. *)
Fixpoint dec_digits (fuel : nat) (n : Z) (acc : string) : string :=
  match fuel with
  | O => acc
  | S fuel' =>
      let acc' := String (digit_char (n mod 10)) acc in
      if n / 10 =? 0 then acc' else dec_digits fuel' (n / 10) acc'
  end.

(** [%d] applied to an [int]. *)
Definition fmt_d (z : Z) : string :=
  if z <? 0 then String "-" (dec_digits 10 (- z) EmptyString)
  else dec_digits 10 z EmptyString.

(** Reading a decimal numeral back, to state that [fmt_d] prints the
    number it is given. *)
Fixpoint value_of_digits (s : string) (acc : Z) : Z :=
  match s with
  | EmptyString => acc
  | String c s' => value_of_digits s' (10 * acc + (Z.of_N (N_of_ascii c) - 48))
  end.

Definition value_of_numeral (s : string) : Z :=
  match s with
  | String "-" s' => - value_of_digits s' 0
  | _ => value_of_digits s 0
  end.

(** [snprintf(buf, size, ...)] keeps at most [size - 1] characters. *)
Definition snprintf (size : nat) (formatted : string) : string :=
  substring 0 (size - 1) formatted.

(** The URL built at main.c:66-74 from the format
    [http://api.thingspeak.com/update?api_key=%s&field1=%d&field2=%d&field3=%d&field4=%d]. *)
Definition thingspeak_query (east west sun angle : Z) : string :=
  ("http://api.thingspeak.com/update?api_key=" ++ THINGSPEAK_API_KEY
   ++ "&field1=" ++ fmt_d east
   ++ "&field2=" ++ fmt_d west
   ++ "&field3=" ++ fmt_d sun
   ++ "&field4=" ++ fmt_d angle)%string.

Definition thingspeak_url (east west sun angle : Z) : string :=
  snprintf 256 (thingspeak_query east west sun angle).

(* ================================================================== *)
(** ** Drivers, observable events and the abort-on-error monad *)

Definition esp_err_t : Type := Z.
Definition ESP_OK : esp_err_t := 0.

Inductive adc_channel_t : Type := ADC_CHANNEL_4 | ADC_CHANNEL_5.

Definition LDR_EAST_CH : adc_channel_t := ADC_CHANNEL_5.
Definition LDR_WEST_CH : adc_channel_t := ADC_CHANNEL_4.

Inductive http_method_t : Type := HTTP_METHOD_GET | HTTP_METHOD_POST.

(** An argument of a [printf] call; [ArgErrName err] stands for
    [esp_err_to_name(err)]. *)
Inductive printf_arg : Type :=
| ArgInt (z : Z)
| ArgErrName (err : esp_err_t).

(** What the program does to the outside world, in order.  [printf] is
    recorded with its format as the source spells it and its arguments;
    [fflush] is not recorded. *)
Inductive event : Type :=
| Printf (format : string) (args : list printf_arg)
| AdcOneshotRead (channel : adc_channel_t)
| LedcSetDuty (duty : Z)
| LedcUpdateDuty
| HttpClientInit (url : string) (method : http_method_t)
| HttpClientPerform
| HttpClientCleanup
| TaskDelay (ms : Z)
| Abort.

(** What the drivers answer during one iteration of the main loop. *)
Record cycle_io : Type := mk_cycle_io {
  adc_east_ret : esp_err_t;
  adc_east_raw : Z;
  adc_west_ret : esp_err_t;
  adc_west_raw : Z;
  ledc_set_duty_ret : esp_err_t;
  ledc_update_duty_ret : esp_err_t;
  http_perform_ret : esp_err_t
}.

(** A computation emits events and either returns or aborts the process
    ([None]); nothing runs after an abort. *)
Definition prog (A : Type) : Type := (list event * option A)%type.

Definition ret {A : Type} (a : A) : prog A := ([], Some a).

Definition bind {A B : Type} (m : prog A) (f : A -> prog B) : prog B :=
  match m with
  | (t, None) => (t, None)
  | (t, Some a) => let (t', r) := f a in (t ++ t', r)
  end.

Definition emit (e : event) : prog unit := ([e], Some tt).

Definition trace {A : Type} (m : prog A) : list event := fst m.
Definition result {A : Type} (m : prog A) : option A := snd m.

Declare Scope prog_scope.
Delimit Scope prog_scope with prog.
Notation "x <- c1 ;; c2" := (bind c1 (fun x => c2))
  (at level 61, c1 at next level, right associativity) : prog_scope.
Notation "' pat <- c1 ;; c2" := (bind c1 (fun x => match x with pat => c2 end))
  (at level 61, pat pattern, c1 at next level, right associativity) : prog_scope.
Notation "c1 ;; c2" := (bind c1 (fun _ => c2))
  (at level 61, right associativity) : prog_scope.
Local Open Scope prog_scope.

(** ESP-IDF's [ESP_ERROR_CHECK(x)]: when [x] is not ESP_OK the error is
    reported and [abort()] is called. *)
Definition ESP_ERROR_CHECK (rc : esp_err_t) : prog unit :=
  if rc =? ESP_OK then ret tt else ([Abort], None).

(** [read_ldr_values], main.c:163-166. *)
Definition read_ldr_values (io : cycle_io) : prog (Z * Z) :=
  emit (AdcOneshotRead LDR_EAST_CH) ;;
  ESP_ERROR_CHECK (adc_east_ret io) ;;
  emit (AdcOneshotRead LDR_WEST_CH) ;;
  ESP_ERROR_CHECK (adc_west_ret io) ;;
  ret (adc_east_raw io, adc_west_raw io).

(** [set_servo_angle], main.c:124-134. *)
Definition set_servo_angle (io : cycle_io) (angle : Z) : prog unit :=
  let angle := clamp_int angle 0 180 in
  let pulse := pulse_width_us SERVO_MIN_US SERVO_MAX_US angle in
  let duty := duty_of_pulse SERVO_PERIOD_US SERVO_MAX_DUTY pulse in
  emit (LedcSetDuty duty) ;;
  ESP_ERROR_CHECK (ledc_set_duty_ret io) ;;
  emit LedcUpdateDuty ;;
  ESP_ERROR_CHECK (ledc_update_duty_ret io).

(** [send_to_thingspeak], main.c:64-90. *)
Definition send_to_thingspeak (io : cycle_io) (east west sun angle : Z)
  : prog unit :=
  let url := thingspeak_url east west sun angle in
  emit (HttpClientInit url HTTP_METHOD_GET) ;;
  emit HttpClientPerform ;;
  let err := http_perform_ret io in
  (if err =? ESP_OK
   then emit (Printf "\nThingSpeak update sent successfully\n" [])
   else emit (Printf "\nThingSpeak send failed: %s\n" [ArgErrName err])) ;;
  emit HttpClientCleanup.

(** One iteration of the [while (1)] loop of [app_main], main.c:233-262. *)
Definition control_cycle (io : cycle_io) : prog unit :=
  emit (Printf "Loop running...\n" []) ;;
  '(ldr_east, ldr_west) <- read_ldr_values io ;;
  let sun_dir := detect_sun_direction ldr_east ldr_west in
  let tilt_angle := compute_tilt_angle sun_dir in
  set_servo_angle io tilt_angle ;;
  emit (Printf "E=%d W=%d  | SunDir=%d | Tilt=%d"
          [ArgInt ldr_east; ArgInt ldr_west; ArgInt sun_dir; ArgInt tilt_angle]) ;;
  send_to_thingspeak io ldr_east ldr_west sun_dir tilt_angle ;;
  emit (TaskDelay 15000).

(** The [while (1)] loop observed over the iterations for which driver
    answers are given: it stops early only by aborting. *)
Fixpoint app_main_loop (ios : list cycle_io) : prog unit :=
  match ios with
  | [] => ret tt
  | io :: rest => control_cycle io ;; app_main_loop rest
  end.

(** The duty values written to the PWM channel, in order. *)
Fixpoint actuator_commands (t : list event) : list Z :=
  match t with
  | [] => []
  | LedcSetDuty duty :: t' => duty :: actuator_commands t'
  | _ :: t' => actuator_commands t'
  end.

(** The HTTP requests configured, in order. *)
Fixpoint http_requests (t : list event) : list (http_method_t * string) :=
  match t with
  | [] => []
  | HttpClientInit url method :: t' => (method, url) :: http_requests t'
  | _ :: t' => http_requests t'
  end.

(** How many HTTP transfers were performed. *)
Fixpoint http_transfers (t : list event) : nat :=
  match t with
  | [] => O
  | HttpClientPerform :: t' => S (http_transfers t')
  | _ :: t' => http_transfers t'
  end.

(** How many HTTP client handles were released. *)
Fixpoint http_cleanups (t : list event) : nat :=
  match t with
  | [] => O
  | HttpClientCleanup :: t' => S (http_cleanups t')
  | _ :: t' => http_cleanups t'
  end.

(** The driver answers of an iteration with another answer of
    [esp_http_client_perform]. *)
Definition with_http_perform_ret (io : cycle_io) (err : esp_err_t) : cycle_io :=
  mk_cycle_io (adc_east_ret io) (adc_east_raw io)
              (adc_west_ret io) (adc_west_raw io)
              (ledc_set_duty_ret io) (ledc_update_duty_ret io) err.

(** Both converter reads and both PWM calls of an iteration succeed. *)
Definition drivers_ok (io : cycle_io) : Prop :=
  adc_east_ret io = ESP_OK /\ adc_west_ret io = ESP_OK /\
  ledc_set_duty_ret io = ESP_OK /\ ledc_update_duty_ret io = ESP_OK.

(** The direction, the tilt angle and the duty an iteration derives from
    the readings the converter delivered. *)
Definition cycle_sun_dir (io : cycle_io) : Z :=
  detect_sun_direction (adc_east_raw io) (adc_west_raw io).

Definition cycle_tilt_angle (io : cycle_io) : Z :=
  compute_tilt_angle (cycle_sun_dir io).

Definition cycle_duty (io : cycle_io) : Z :=
  servo_duty (cycle_tilt_angle io).

(* ================================================================== *)
(** ** Start-up of [app_main]: PWM, converter and WiFi bring-up *)

Definition WIFI_SSID : string := "Wokwi-GUEST".
Definition WIFI_PASS : string := EmptyString.

Inductive ledc_mode_t : Type := LEDC_LOW_SPEED_MODE.
Inductive ledc_timer_t : Type := LEDC_TIMER_0.
Inductive ledc_channel_t : Type := LEDC_CHANNEL_0.
Inductive ledc_timer_bit_t : Type := LEDC_TIMER_13_BIT.
Inductive ledc_clk_cfg_t : Type := LEDC_AUTO_CLK.
Inductive wifi_mode_t : Type := WIFI_MODE_STA.
Inductive wifi_interface_t : Type := WIFI_IF_STA.

Definition SERVO_PIN : Z := 27.
Definition SERVO_TIMER : ledc_timer_t := LEDC_TIMER_0.
Definition SERVO_MODE : ledc_mode_t := LEDC_LOW_SPEED_MODE.
Definition SERVO_CHANNEL : ledc_channel_t := LEDC_CHANNEL_0.
Definition SERVO_DUTY_RES : ledc_timer_bit_t := LEDC_TIMER_13_BIT.
Definition SERVO_FREQ_HZ : Z := 50.

(** The driver and system calls made before the main loop, each with the
    configuration main.c passes. *)
Inductive startup_call : Type :=
| LedcTimerConfig (speed_mode : ledc_mode_t) (duty_resolution : ledc_timer_bit_t)
    (timer_num : ledc_timer_t) (freq_hz : Z) (clk_cfg : ledc_clk_cfg_t)
| LedcChannelConfig (gpio_num : Z) (speed_mode : ledc_mode_t)
    (channel : ledc_channel_t) (timer_sel : ledc_timer_t) (duty hpoint : Z)
| AdcOneshotNewUnit
| AdcOneshotConfigChannel (channel : adc_channel_t)
| StartupPrintf (format : string)
| NvsFlashInit
| EspNetifInit
| EspEventLoopCreateDefault
| EspNetifCreateDefaultWifiSta
| EspWifiInit
| EspWifiSetMode (mode : wifi_mode_t)
| EspWifiSetConfig (interface : wifi_interface_t) (ssid password : string)
| EspWifiStart
| EspWifiConnect
| StartupDelay (ms : Z)
| StartupAbort.

(** Start-up computations: the calls made so far, and [None] once the
    process has aborted. *)
Definition startup (A : Type) : Type := (list startup_call * option A)%type.

Definition startup_ret {A : Type} (a : A) : startup A := ([], Some a).

Definition startup_bind {A B : Type} (m : startup A) (f : A -> startup B)
  : startup B :=
  match m with
  | (t, None) => (t, None)
  | (t, Some a) => let (t', r) := f a in (t ++ t', r)
  end.

Definition startup_emit (c : startup_call) : startup unit := ([c], Some tt).

Declare Scope startup_scope.
Delimit Scope startup_scope with startup.
Notation "c1 ;; c2" := (startup_bind c1 (fun _ => c2))
  (at level 61, right associativity) : startup_scope.

Section Startup.

(** What each call of the start-up answers. *)
Variable answers : startup_call -> esp_err_t.

(** [ESP_ERROR_CHECK(call(...))]: make the call and abort unless it
    answers ESP_OK. *)
Definition checked_call (c : startup_call) : startup unit :=
  (startup_emit c ;;
   if answers c =? ESP_OK then startup_ret tt else ([StartupAbort], None))%startup.

(** [wifi_init], main.c:38-59. *)
Definition wifi_init : startup unit :=
  (checked_call NvsFlashInit ;;
   checked_call EspNetifInit ;;
   checked_call EspEventLoopCreateDefault ;;
   startup_emit EspNetifCreateDefaultWifiSta ;;
   checked_call EspWifiInit ;;
   checked_call (EspWifiSetMode WIFI_MODE_STA) ;;
   checked_call (EspWifiSetConfig WIFI_IF_STA WIFI_SSID WIFI_PASS) ;;
   checked_call EspWifiStart ;;
   checked_call EspWifiConnect)%startup.

(** [adc_init_oneshot], main.c:146-161. *)
Definition adc_init_oneshot : startup unit :=
  (checked_call AdcOneshotNewUnit ;;
   checked_call (AdcOneshotConfigChannel LDR_EAST_CH) ;;
   checked_call (AdcOneshotConfigChannel LDR_WEST_CH))%startup.

(** [app_main] up to its [while (1)], main.c:199-228. *)
Definition app_main_setup : startup unit :=
  (checked_call
     (LedcTimerConfig SERVO_MODE SERVO_DUTY_RES SERVO_TIMER SERVO_FREQ_HZ
        LEDC_AUTO_CLK) ;;
   checked_call
     (LedcChannelConfig SERVO_PIN SERVO_MODE SERVO_CHANNEL SERVO_TIMER 0 0) ;;
   adc_init_oneshot ;;
   startup_emit (StartupPrintf "Smart Canopy System Started\n") ;;
   wifi_init ;;
   startup_emit (StartupDelay 5000))%startup.

(** [app_main], main.c:199-264: the start-up, then the main loop over the
    iterations for which driver answers are given. *)
Definition app_main (ios : list cycle_io)
  : list (startup_call + event) * option unit :=
  match app_main_setup with
  | (t, None) => (map inl t, None)
  | (t, Some _) =>
      let (t', r) := app_main_loop ios in (map inl t ++ map inr t', r)
  end.

End Startup.

(** The start-up as a straight line of calls, each one checked or not. *)
Inductive startup_step : Type :=
| Checked (c : startup_call)
| Unchecked (c : startup_call).

Definition step_call (s : startup_step) : startup_call :=
  match s with Checked c => c | Unchecked c => c end.

Definition step_ok (answers : startup_call -> esp_err_t) (s : startup_step)
  : Prop :=
  match s with Checked c => answers c = ESP_OK | Unchecked _ => True end.

(** Running a straight line of start-up calls. *)
Fixpoint run_steps (answers : startup_call -> esp_err_t)
  (l : list startup_step) : startup unit :=
  match l with
  | [] => startup_ret tt
  | Checked c :: l' =>
      (checked_call answers c ;; run_steps answers l')%startup
  | Unchecked c :: l' =>
      (startup_emit c ;; run_steps answers l')%startup
  end.

Definition wifi_init_steps : list startup_step :=
  [Checked NvsFlashInit; Checked EspNetifInit;
   Checked EspEventLoopCreateDefault; Unchecked EspNetifCreateDefaultWifiSta;
   Checked EspWifiInit; Checked (EspWifiSetMode WIFI_MODE_STA);
   Checked (EspWifiSetConfig WIFI_IF_STA WIFI_SSID WIFI_PASS);
   Checked EspWifiStart; Checked EspWifiConnect].

Definition adc_init_oneshot_steps : list startup_step :=
  [Checked AdcOneshotNewUnit; Checked (AdcOneshotConfigChannel LDR_EAST_CH);
   Checked (AdcOneshotConfigChannel LDR_WEST_CH)].

Definition app_main_setup_steps : list startup_step :=
  [Checked (LedcTimerConfig SERVO_MODE SERVO_DUTY_RES SERVO_TIMER SERVO_FREQ_HZ
              LEDC_AUTO_CLK);
   Checked (LedcChannelConfig SERVO_PIN SERVO_MODE SERVO_CHANNEL SERVO_TIMER 0 0)]
  ++ adc_init_oneshot_steps
  ++ [Unchecked (StartupPrintf "Smart Canopy System Started\n")]
  ++ wifi_init_steps
  ++ [Unchecked (StartupDelay 5000)].

(** The events of the main loop inside a trace of [app_main]. *)
Fixpoint loop_events (t : list (startup_call + event)) : list event :=
  match t with
  | [] => []
  | inr e :: t' => e :: loop_events t'
  | inl _ :: t' => loop_events t'
  end.

(* ================================================================== *)
(** ** Reading a telemetry URL back *)

(** Characters of a string, as a predicate on each. *)
Fixpoint string_forall (P : ascii -> Prop) (s : string) : Prop :=
  match s with
  | EmptyString => True
  | String c s' => P c /\ string_forall P s'
  end.

(** The characters before the first [&], and the rest. *)
Fixpoint take_field (s : string) : string * string :=
  match s with
  | EmptyString => (EmptyString, EmptyString)
  | String c s' =>
      if Ascii.eqb c "&" then (EmptyString, s)
      else let (f, r) := take_field s' in (String c f, r)
  end.

Fixpoint drop_prefix (p s : string) : option string :=
  match p, s with
  | EmptyString, _ => Some s
  | String a p', String b s' => if Ascii.eqb a b then drop_prefix p' s' else None
  | String _ _, EmptyString => None
  end.

(** What a receiver of the request reads: the four fields, in order. *)
Definition decode_url (url : string) : option (Z * Z * Z * Z) :=
  match drop_prefix
          "http://api.thingspeak.com/update?api_key=JA0W2AWRBR5KH8ZF&field1="
          url with
  | None => None
  | Some r1 =>
      let (f1, r1') := take_field r1 in
      match drop_prefix "&field2=" r1' with
      | None => None
      | Some r2 =>
          let (f2, r2') := take_field r2 in
          match drop_prefix "&field3=" r2' with
          | None => None
          | Some r3 =>
              let (f3, r3') := take_field r3 in
              match drop_prefix "&field4=" r3' with
              | None => None
              | Some r4 =>
                  Some (value_of_numeral f1, value_of_numeral f2,
                        value_of_numeral f3, value_of_numeral r4)
              end
          end
      end
  end.

(** Range side conditions of [int] arithmetic. *)
Ltac int_range := unfold Int.in_int, Int.INT_MIN, Int.INT_MAX in *; lia.

(* ================================================================== *)
(** ** Facts about 32-bit arithmetic *)

Module IntFacts.
Import Int.

Lemma wrap_in_int (z : Z) : in_int (wrap z).
Proof.
  unfold in_int, wrap, INT_MIN, INT_MAX.
  pose proof (Z.mod_pos_bound (z + 2147483648) 4294967296 eq_refl). lia.
Qed.

Lemma wrap_id (z : Z) : in_int z -> wrap z = z.
Proof.
  unfold in_int, wrap, INT_MIN, INT_MAX. intros Hz.
  rewrite Z.mod_small by lia. lia.
Qed.

Lemma add_exact (a b : Z) : in_int (a + b) -> add a b = a + b.
Proof. apply wrap_id. Qed.

Lemma sub_exact (a b : Z) : in_int (a - b) -> sub a b = a - b.
Proof. apply wrap_id. Qed.

Lemma mul_exact (a b : Z) : in_int (a * b) -> mul a b = a * b.
Proof. apply wrap_id. Qed.

Lemma neg_exact (a : Z) : in_int (- a) -> neg a = - a.
Proof. apply wrap_id. Qed.

Lemma div_exact (a b : Z) : in_int (Z.quot a b) -> div a b = Z.quot a b.
Proof. apply wrap_id. Qed.

(** Truncating division of a non-negative value by a positive one. *)
Lemma quot_bounds (a b : Z) : 0 <= a -> 0 < b -> 0 <= Z.quot a b <= a.
Proof.
  intros Ha Hb. rewrite Z.quot_div_nonneg by lia. split.
  - apply Z.div_pos; lia.
  - apply Z.div_le_upper_bound; nia.
Qed.

Lemma quot_le_of_le_mul (a b c : Z) :
  0 <= a -> 0 < b -> a <= c * b -> Z.quot a b <= c.
Proof.
  intros Ha Hb Hc. rewrite Z.quot_div_nonneg by lia.
  apply Z.div_le_upper_bound; lia.
Qed.

(** A truncated quotient lies between zero and its numerator. *)
Lemma quot_between (a b : Z) :
  0 < b -> Z.min a 0 <= Z.quot a b <= Z.max a 0.
Proof.
  intros Hb. destruct (Z_le_gt_dec 0 a) as [Ha | Ha].
  - pose proof (quot_bounds a b Ha Hb). lia.
  - assert (Hq : Z.quot a b = - Z.quot (- a) b).
    { rewrite Z.quot_opp_l by lia. lia. }
    pose proof (quot_bounds (- a) b ltac:(lia) Hb). lia.
Qed.

Lemma div_exact_of_in_int (a b : Z) :
  in_int a -> 0 < b -> div a b = Z.quot a b.
Proof.
  intros Ha Hb. apply div_exact.
  pose proof (quot_between a b Hb). unfold in_int, INT_MIN, INT_MAX in *. lia.
Qed.

End IntFacts.

(* ================================================================== *)
(** ** clamp_int *)

Lemma clamp_int_range (v lo hi : Z) : lo <= hi -> lo <= clamp_int v lo hi <= hi.
Proof.
  intros Hle. unfold clamp_int.
  destruct (Z.ltb_spec v lo); [lia|].
  destruct (Z.gtb_spec v hi); lia.
Qed.

Lemma clamp_int_inside (v lo hi : Z) : lo <= v <= hi -> clamp_int v lo hi = v.
Proof.
  intros Hv. unfold clamp_int.
  destruct (Z.ltb_spec v lo); [lia|].
  destruct (Z.gtb_spec v hi); lia.
Qed.

Lemma clamp_int_below (v lo hi : Z) : v < lo -> clamp_int v lo hi = lo.
Proof.
  intros Hv. unfold clamp_int. destruct (Z.ltb_spec v lo); lia.
Qed.

Lemma clamp_int_above (v lo hi : Z) : lo <= hi -> hi < v -> clamp_int v lo hi = hi.
Proof.
  intros Hle Hv. unfold clamp_int.
  destruct (Z.ltb_spec v lo); [lia|].
  destruct (Z.gtb_spec v hi); lia.
Qed.

Lemma clamp_int_idempotent (v lo hi : Z) :
  lo <= hi -> clamp_int (clamp_int v lo hi) lo hi = clamp_int v lo hi.
Proof.
  intros Hle. apply clamp_int_inside, clamp_int_range, Hle.
Qed.

(* ================================================================== *)
(** ** The servo arithmetic is exact when its products fit in an [int] *)

Section ServoExact.

Variables mn mx per md : Z.
Hypothesis Hmn : Int.in_int mn.
Hypothesis Hmx : Int.in_int mx.
Hypothesis Hle : mn <= mx.
Hypothesis Hspan : 180 * (mx - mn) <= Int.INT_MAX.

Lemma pulse_width_us_exact (angle : Z) :
  0 <= angle <= 180 ->
  pulse_width_us mn mx angle = mn + Z.quot (angle * (mx - mn)) 180.
Proof.
  intros Ha. unfold pulse_width_us.
  unfold Int.in_int, Int.INT_MIN, Int.INT_MAX in *.
  rewrite IntFacts.sub_exact by (unfold Int.in_int, Int.INT_MIN, Int.INT_MAX; lia).
  assert (Hprod : 0 <= angle * (mx - mn) <= 180 * (mx - mn)) by nia.
  rewrite IntFacts.mul_exact by (unfold Int.in_int, Int.INT_MIN, Int.INT_MAX; lia).
  pose proof (IntFacts.quot_bounds (angle * (mx - mn)) 180 ltac:(lia) ltac:(lia)) as Hq.
  pose proof (IntFacts.quot_le_of_le_mul (angle * (mx - mn)) 180 (mx - mn)
                ltac:(lia) ltac:(lia) ltac:(lia)) as Hq'.
  rewrite IntFacts.div_exact by (unfold Int.in_int, Int.INT_MIN, Int.INT_MAX; lia).
  rewrite IntFacts.add_exact by (unfold Int.in_int, Int.INT_MIN, Int.INT_MAX; lia).
  reflexivity.
Qed.

Lemma pulse_width_us_range (angle : Z) :
  0 <= angle <= 180 -> mn <= pulse_width_us mn mx angle <= mx.
Proof.
  intros Ha. rewrite pulse_width_us_exact by exact Ha.
  assert (Hprod : 0 <= angle * (mx - mn) <= 180 * (mx - mn)) by nia.
  pose proof (IntFacts.quot_bounds (angle * (mx - mn)) 180 ltac:(lia) ltac:(lia)).
  pose proof (IntFacts.quot_le_of_le_mul (angle * (mx - mn)) 180 (mx - mn)
                ltac:(lia) ltac:(lia) ltac:(lia)).
  lia.
Qed.

Lemma pulse_width_us_monotone (a1 a2 : Z) :
  0 <= a1 -> a1 <= a2 -> a2 <= 180 ->
  pulse_width_us mn mx a1 <= pulse_width_us mn mx a2.
Proof.
  intros H0 H12 H180.
  rewrite !pulse_width_us_exact by lia.
  apply Z.add_le_mono_l, Z.quot_le_mono; [lia | nia].
Qed.

Hypothesis Hmd : 0 <= md.
Hypothesis Hlo : Int.INT_MIN <= mn * md.
Hypothesis Hhi : mx * md <= Int.INT_MAX.
Hypothesis Hper : 0 < per.

Lemma duty_of_pulse_exact (pulse : Z) :
  mn <= pulse <= mx ->
  duty_of_pulse per md pulse = Z.quot (pulse * md) per.
Proof.
  intros Hp. unfold duty_of_pulse.
  assert (Hprod : mn * md <= pulse * md <= mx * md) by nia.
  rewrite IntFacts.mul_exact by (unfold Int.in_int; lia).
  apply IntFacts.div_exact_of_in_int; [unfold Int.in_int; lia | exact Hper].
Qed.

Lemma to_pulse_exact (angle : Z) :
  0 <= angle <= 180 ->
  to_pulse mn mx per md angle
  = Z.quot ((mn + Z.quot (angle * (mx - mn)) 180) * md) per.
Proof.
  intros Ha. unfold to_pulse. rewrite clamp_int_inside by exact Ha.
  rewrite duty_of_pulse_exact by (apply pulse_width_us_range; exact Ha).
  rewrite pulse_width_us_exact by exact Ha. reflexivity.
Qed.

Lemma to_pulse_monotone_exact (a1 a2 : Z) :
  0 <= a1 -> a1 <= a2 -> a2 <= 180 ->
  to_pulse mn mx per md a1 <= to_pulse mn mx per md a2.
Proof.
  intros H0 H12 H180. unfold to_pulse.
  rewrite !clamp_int_inside by lia.
  rewrite !duty_of_pulse_exact by (apply pulse_width_us_range; lia).
  apply Z.quot_le_mono; [exact Hper|].
  pose proof (pulse_width_us_monotone a1 a2 H0 H12 H180). nia.
Qed.

Lemma to_pulse_range_exact (angle : Z) :
  0 <= mn -> mx <= per -> 0 <= angle <= 180 ->
  0 <= to_pulse mn mx per md angle <= md.
Proof.
  intros Hmn0 Hmxper Ha. unfold to_pulse. rewrite clamp_int_inside by exact Ha.
  pose proof (pulse_width_us_range angle Ha) as Hp.
  rewrite duty_of_pulse_exact by exact Hp.
  set (p := pulse_width_us mn mx angle) in *.
  assert (Hprod : 0 <= p * md) by nia.
  split.
  - apply (IntFacts.quot_bounds _ _ Hprod Hper).
  - apply IntFacts.quot_le_of_le_mul; [exact Hprod | exact Hper | nia].
Qed.

End ServoExact.

(* ================================================================== *)
(** ** SunDirectionClassifier *)

(** When the difference of the readings fits in an [int] the subtraction
    is exact and the two comparisons are those of the integers. *)
Lemma classify_cases (threshold east west : Z) :
  0 <= threshold <= Int.INT_MAX ->
  Int.in_int (east - west) ->
  classify threshold east west =
    if east - west >? threshold then SUN_EAST
    else if east - west <? - threshold then SUN_WEST
    else SUN_OVERHEAD.
Proof.
  intros Hth Hdiff. unfold classify.
  rewrite IntFacts.sub_exact by exact Hdiff.
  rewrite IntFacts.neg_exact by int_range.
  reflexivity.
Qed.

Lemma readings_difference_in_int (east west : Z) :
  0 <= east <= Int.INT_MAX -> 0 <= west <= Int.INT_MAX ->
  Int.in_int (east - west).
Proof. intros He Hw. int_range. Qed.

(** C1, as amended: for [int] readings whose difference [east - west] fits
    in an [int] (as it does for all non-negative readings) and a threshold
    in [0, INT_MAX], the classifier answers East exactly when
    [east - west > threshold], West exactly when [east - west < -threshold]
    and Overhead otherwise; both boundary differences give Overhead. *)
Theorem classify_thresholds (threshold east west : Z) :
  0 <= threshold <= Int.INT_MAX ->
  Int.in_int (east - west) ->
  (classify threshold east west = SUN_EAST <-> east - west > threshold) /\
  (classify threshold east west = SUN_WEST <-> east - west < - threshold) /\
  (classify threshold east west = SUN_OVERHEAD
     <-> - threshold <= east - west <= threshold) /\
  (east - west = threshold -> classify threshold east west = SUN_OVERHEAD) /\
  (east - west = - threshold -> classify threshold east west = SUN_OVERHEAD).
Proof.
  intros Hth Hdiff. rewrite (classify_cases threshold east west Hth Hdiff).
  unfold SUN_EAST, SUN_WEST, SUN_OVERHEAD.
  destruct (Z.gtb_spec (east - west) threshold);
    destruct (Z.ltb_spec (east - west) (- threshold));
    repeat split; intros; try lia; try discriminate.
Qed.

Lemma classify_thresholds_witness :
  0 <= LDR_THRESHOLD <= Int.INT_MAX /\
  Int.in_int (2000 - 1500) /\
  (detect_sun_direction 2000 1500 = SUN_EAST <-> 2000 - 1500 > LDR_THRESHOLD).
Proof.
  assert (Hth : 0 <= LDR_THRESHOLD <= Int.INT_MAX) by (vm_compute; split; discriminate).
  assert (Hd : Int.in_int (2000 - 1500)) by (vm_compute; split; discriminate).
  split; [exact Hth | split; [exact Hd |]].
  exact (proj1 (classify_thresholds LDR_THRESHOLD 2000 1500 Hth Hd)).
Defined.

(** C1, as stated, fails where [east - west] leaves the [int] range: the
    subtraction wraps around and the larger east reading is classified
    West. *)
Lemma classify_overflow_counterexample :
  Int.in_int 2147483647 /\ Int.in_int (-1) /\
  0 <= LDR_THRESHOLD /\
  2147483647 - (-1) > LDR_THRESHOLD /\
  detect_sun_direction 2147483647 (-1) = SUN_WEST /\
  detect_sun_direction 2147483647 (-1) <> SUN_EAST.
Proof.
  repeat split; try (vm_compute; discriminate).
Qed.

(** The classifier of the code on non-negative readings, the only ones the
    converter delivers. *)
Lemma detect_sun_direction_readings (east west : Z) :
  0 <= east <= Int.INT_MAX -> 0 <= west <= Int.INT_MAX ->
  detect_sun_direction east west =
    if east - west >? 150 then SUN_EAST
    else if east - west <? -150 then SUN_WEST
    else SUN_OVERHEAD.
Proof.
  intros He Hw. unfold detect_sun_direction.
  rewrite classify_cases.
  - reflexivity.
  - unfold LDR_THRESHOLD. int_range.
  - apply readings_difference_in_int; assumption.
Qed.

(** The classifier only ever answers one of the three direction codes. *)
Lemma classify_codes (threshold east west : Z) :
  classify threshold east west = SUN_EAST \/
  classify threshold east west = SUN_OVERHEAD \/
  classify threshold east west = SUN_WEST.
Proof.
  unfold classify.
  destruct (_ >? _); [now left|].
  destruct (_ <? _); [now right; right | now right; left].
Qed.

(* ================================================================== *)
(** ** TiltPolicy *)

(** C2: the tilt lookup is a total function sending East to 30, Overhead
    to 90, West to 150 and every other [int] to the failsafe 90. *)
Theorem compute_tilt_angle_lookup :
  compute_tilt_angle SUN_EAST = 30 /\
  compute_tilt_angle SUN_OVERHEAD = 90 /\
  compute_tilt_angle SUN_WEST = 150 /\
  (forall d : Z,
      d <> SUN_EAST -> d <> SUN_OVERHEAD -> d <> SUN_WEST ->
      compute_tilt_angle d = 90) /\
  (forall d : Z,
      compute_tilt_angle d = 30 \/ compute_tilt_angle d = 90 \/
      compute_tilt_angle d = 150).
Proof.
  repeat split; try reflexivity.
  - intros d HE HO HW. unfold compute_tilt_angle.
    destruct (Z.eqb_spec d SUN_EAST); [contradiction|].
    destruct (Z.eqb_spec d SUN_WEST); [contradiction|]. reflexivity.
  - intros d. unfold compute_tilt_angle.
    destruct (d =? SUN_EAST); [now left|].
    destruct (d =? SUN_WEST); [now right; right | now right; left].
Qed.

(* ================================================================== *)
(** ** AngleMapper *)

(** C4: an angle outside [0, 180] is driven exactly as its clamped value:
    below 0 as 0, above 180 as 180, whatever the parameters. *)
Theorem to_pulse_clamps (mn mx per md angle : Z) :
  to_pulse mn mx per md angle = to_pulse mn mx per md (clamp_int angle 0 180) /\
  (angle < 0 -> to_pulse mn mx per md angle = to_pulse mn mx per md 0) /\
  (180 < angle -> to_pulse mn mx per md angle = to_pulse mn mx per md 180) /\
  (forall io, set_servo_angle io angle
              = set_servo_angle io (clamp_int angle 0 180)) /\
  servo_duty (-10) = servo_duty 0 /\
  servo_duty 200 = servo_duty 180.
Proof.
  assert (Hidem : clamp_int (clamp_int angle 0 180) 0 180 = clamp_int angle 0 180)
    by (apply clamp_int_idempotent; lia).
  repeat split; try reflexivity.
  - unfold to_pulse. rewrite Hidem. reflexivity.
  - intros Hlt. unfold to_pulse.
    rewrite (clamp_int_below angle 0 180 Hlt). reflexivity.
  - intros Hgt. unfold to_pulse.
    rewrite (clamp_int_above angle 0 180) by lia. reflexivity.
  - intros io. unfold set_servo_angle. rewrite Hidem. reflexivity.
Qed.

(* ================================================================== *)
(** ** The code's configuration *)

Lemma to_pulse_clamp_eq (mn mx per md angle : Z) :
  to_pulse mn mx per md angle = to_pulse mn mx per md (clamp_int angle 0 180).
Proof.
  unfold to_pulse. rewrite clamp_int_idempotent by lia. reflexivity.
Qed.

(** With the macros of main.c no operation of [set_servo_angle] wraps. *)
Lemma servo_duty_exact (angle : Z) :
  servo_duty angle
  = Z.quot ((500 + Z.quot (clamp_int angle 0 180 * 1900) 180) * 8191) 20000.
Proof.
  unfold servo_duty. rewrite to_pulse_clamp_eq.
  pose proof (clamp_int_range angle 0 180 ltac:(lia)) as Hc.
  rewrite to_pulse_exact; try exact Hc;
    unfold SERVO_MIN_US, SERVO_MAX_US, SERVO_PERIOD_US, SERVO_MAX_DUTY;
    try int_range.
  reflexivity.
Qed.

Lemma servo_duty_in_range (angle : Z) : 0 <= servo_duty angle <= SERVO_MAX_DUTY.
Proof.
  unfold servo_duty. rewrite to_pulse_clamp_eq.
  pose proof (clamp_int_range angle 0 180 ltac:(lia)) as Hc.
  apply to_pulse_range_exact; try exact Hc;
    unfold SERVO_MIN_US, SERVO_MAX_US, SERVO_PERIOD_US, SERVO_MAX_DUTY;
    try int_range.
Qed.

Lemma clamp_int_monotone (a b lo hi : Z) :
  lo <= hi -> a <= b -> clamp_int a lo hi <= clamp_int b lo hi.
Proof.
  intros Hle Hab. unfold clamp_int.
  destruct (Z.ltb_spec a lo), (Z.ltb_spec b lo),
    (Z.gtb_spec a hi), (Z.gtb_spec b hi); lia.
Qed.

Lemma servo_duty_monotone (a1 a2 : Z) :
  a1 <= a2 -> servo_duty a1 <= servo_duty a2.
Proof.
  intros H12. unfold servo_duty.
  rewrite (to_pulse_clamp_eq _ _ _ _ a1), (to_pulse_clamp_eq _ _ _ _ a2).
  pose proof (clamp_int_range a1 0 180 ltac:(lia)).
  pose proof (clamp_int_range a2 0 180 ltac:(lia)).
  pose proof (clamp_int_monotone a1 a2 0 180 ltac:(lia) H12).
  apply to_pulse_monotone_exact;
    unfold SERVO_MIN_US, SERVO_MAX_US, SERVO_PERIOD_US, SERVO_MAX_DUTY;
    try int_range; lia.
Qed.

(** C3: for every angle in [0, 180] the duty computed with the macros of
    main.c (500, 2400, 20000, 8191) lies in [0, 8191]; the same holds for
    all parameters with [0 <= min_pulse_us <= max_pulse_us <= period_us]
    and [0 <= max_duty] whose period is not zero and whose products
    [180 * (max_pulse_us - min_pulse_us)] and [max_pulse_us * max_duty]
    fit in an [int]. *)
Theorem to_pulse_duty_in_range :
  (0 <= SERVO_MIN_US <= SERVO_MAX_US /\ SERVO_MAX_US <= SERVO_PERIOD_US /\
   0 <= SERVO_MAX_DUTY) /\
  (forall angle : Z,
      0 <= angle <= 180 -> 0 <= servo_duty angle <= SERVO_MAX_DUTY) /\
  (forall mn mx per md angle : Z,
      0 <= angle <= 180 ->
      0 <= mn <= mx -> mx <= per -> 0 <= md ->
      0 < per ->
      mx <= Int.INT_MAX ->
      180 * (mx - mn) <= Int.INT_MAX ->
      mx * md <= Int.INT_MAX ->
      0 <= to_pulse mn mx per md angle <= md).
Proof.
  split; [vm_compute; intuition discriminate|].
  split; [intros angle _; apply servo_duty_in_range|].
  intros mn mx per md angle Ha Hmn Hmx Hmd Hper Hint Hspan Hprod.
  apply to_pulse_range_exact; try assumption; try lia; int_range.
Qed.

Lemma to_pulse_duty_in_range_witness :
  0 <= servo_duty 180 <= SERVO_MAX_DUTY.
Proof.
  apply (proj2 (proj2 to_pulse_duty_in_range)
           SERVO_MIN_US SERVO_MAX_US SERVO_PERIOD_US SERVO_MAX_DUTY 180);
    vm_compute; try split; discriminate.
Defined.

(** C6: over [0, 180] the duty computed with the macros of main.c never
    decreases when the angle grows; the same holds for all pulse bounds
    [min_pulse_us <= max_pulse_us] with a non-negative maximal duty and a
    positive period whose products fit in an [int]. *)
Theorem to_pulse_monotone :
  (forall a1 a2 : Z,
      0 <= a1 -> a1 <= a2 -> a2 <= 180 -> servo_duty a1 <= servo_duty a2) /\
  (forall mn mx per md a1 a2 : Z,
      0 <= a1 -> a1 <= a2 -> a2 <= 180 ->
      mn <= mx ->
      Int.in_int mn -> Int.in_int mx ->
      180 * (mx - mn) <= Int.INT_MAX ->
      0 <= md -> 0 < per ->
      Int.INT_MIN <= mn * md -> mx * md <= Int.INT_MAX ->
      to_pulse mn mx per md a1 <= to_pulse mn mx per md a2).
Proof.
  split; [intros a1 a2 _ H12 _; apply servo_duty_monotone, H12|].
  intros mn mx per md a1 a2 H0 H12 H180 Hle Hmn Hmx Hspan Hmd Hper Hlo Hhi.
  apply to_pulse_monotone_exact; assumption.
Qed.

Lemma to_pulse_monotone_witness :
  servo_duty 30 <= servo_duty 150.
Proof.
  apply (proj2 to_pulse_monotone
           SERVO_MIN_US SERVO_MAX_US SERVO_PERIOD_US SERVO_MAX_DUTY 30 150);
    vm_compute; try split; discriminate.
Defined.

(* ================================================================== *)
(** ** The composed pipeline *)

(** C5: the three end-to-end scenarios with threshold 150, pulse bounds
    500 and 2400, period 20000 and maximal duty 8191. *)
Theorem pipeline_scenarios :
  (LDR_THRESHOLD = 150 /\ SERVO_MIN_US = 500 /\ SERVO_MAX_US = 2400 /\
   SERVO_PERIOD_US = 20000 /\ SERVO_MAX_DUTY = 8191) /\
  (detect_sun_direction 2000 1500 = SUN_EAST /\
   compute_tilt_angle (detect_sun_direction 2000 1500) = 30 /\
   servo_pulse_width_us 30 = 816 /\ servo_duty 30 = 334) /\
  (detect_sun_direction 1800 1850 = SUN_OVERHEAD /\
   compute_tilt_angle (detect_sun_direction 1800 1850) = 90 /\
   servo_pulse_width_us 90 = 1450 /\ servo_duty 90 = 593) /\
  (detect_sun_direction 1000 1600 = SUN_WEST /\
   compute_tilt_angle (detect_sun_direction 1000 1600) = 150 /\
   servo_pulse_width_us 150 = 2083 /\ servo_duty 150 = 853) /\
  (actuator_commands (trace (control_cycle
     (mk_cycle_io ESP_OK 2000 ESP_OK 1500 ESP_OK ESP_OK ESP_OK))) = [334] /\
   actuator_commands (trace (control_cycle
     (mk_cycle_io ESP_OK 1800 ESP_OK 1850 ESP_OK ESP_OK ESP_OK))) = [593] /\
   actuator_commands (trace (control_cycle
     (mk_cycle_io ESP_OK 1000 ESP_OK 1600 ESP_OK ESP_OK ESP_OK))) = [853]).
Proof. repeat split; vm_compute; reflexivity. Qed.

Lemma pipeline_cases (east west : Z) :
  (compute_tilt_angle (detect_sun_direction east west) = 30 /\
   servo_duty (compute_tilt_angle (detect_sun_direction east west)) = 334) \/
  (compute_tilt_angle (detect_sun_direction east west) = 90 /\
   servo_duty (compute_tilt_angle (detect_sun_direction east west)) = 593) \/
  (compute_tilt_angle (detect_sun_direction east west) = 150 /\
   servo_duty (compute_tilt_angle (detect_sun_direction east west)) = 853).
Proof.
  unfold detect_sun_direction.
  destruct (classify_codes LDR_THRESHOLD east west) as [H | [H | H]]; rewrite H.
  - left. split; vm_compute; reflexivity.
  - right; left. split; vm_compute; reflexivity.
  - right; right. split; vm_compute; reflexivity.
Qed.

(* ================================================================== *)
(** ** The abort-on-error monad *)

Lemma bind_ret_l {A B : Type} (a : A) (f : A -> prog B) : bind (ret a) f = f a.
Proof. unfold bind, ret. destruct (f a). reflexivity. Qed.

Lemma bind_ret_r {A : Type} (m : prog A) : bind m ret = m.
Proof.
  destruct m as [t [a|]]; unfold bind, ret; [rewrite app_nil_r|]; reflexivity.
Qed.

Lemma bind_assoc {A B C : Type} (m : prog A) (f : A -> prog B) (g : B -> prog C) :
  bind (bind m f) g = bind m (fun a => bind (f a) g).
Proof.
  destruct m as [t [a|]]; unfold bind; [|reflexivity].
  destruct (f a) as [t' [b|]]; [|reflexivity].
  destruct (g b) as [t'' r]. rewrite app_assoc. reflexivity.
Qed.

(** Nothing runs after an abort. *)
Lemma bind_aborted {A B : Type} (m : prog A) (f : A -> prog B) :
  result m = None -> bind m f = (trace m, None).
Proof.
  destruct m as [t [a|]]; unfold result, trace; simpl; intros H;
    [discriminate | reflexivity].
Qed.

Lemma bind_returned {A B : Type} (m : prog A) (f : A -> prog B) (a : A) :
  result m = Some a ->
  bind m f = (trace m ++ trace (f a), result (f a)).
Proof.
  destruct m as [t [a'|]]; unfold result, trace; simpl; intros H;
    [|discriminate].
  injection H as ->. destruct (f a). reflexivity.
Qed.

Lemma ESP_ERROR_CHECK_ok (rc : esp_err_t) :
  rc = ESP_OK -> ESP_ERROR_CHECK rc = ret tt.
Proof. intros ->. reflexivity. Qed.

Lemma ESP_ERROR_CHECK_fails (rc : esp_err_t) :
  rc <> ESP_OK -> ESP_ERROR_CHECK rc = ([Abort], None).
Proof.
  intros H. unfold ESP_ERROR_CHECK. destruct (Z.eqb_spec rc ESP_OK); congruence.
Qed.

(* ================================================================== *)
(** ** One iteration of the main loop, case by case *)

Section ControlCycle.

Variable io : cycle_io.

Lemma control_cycle_east_read_fails :
  adc_east_ret io <> ESP_OK ->
  control_cycle io =
    ([Printf "Loop running...\n" []; AdcOneshotRead LDR_EAST_CH; Abort], None).
Proof.
  intros HE. unfold control_cycle, read_ldr_values.
  rewrite (ESP_ERROR_CHECK_fails _ HE). reflexivity.
Qed.

Lemma control_cycle_west_read_fails :
  adc_east_ret io = ESP_OK -> adc_west_ret io <> ESP_OK ->
  control_cycle io =
    ([Printf "Loop running...\n" []; AdcOneshotRead LDR_EAST_CH;
      AdcOneshotRead LDR_WEST_CH; Abort], None).
Proof.
  intros HE HW. unfold control_cycle, read_ldr_values.
  rewrite (ESP_ERROR_CHECK_ok _ HE), (ESP_ERROR_CHECK_fails _ HW). reflexivity.
Qed.

Lemma control_cycle_set_duty_fails :
  adc_east_ret io = ESP_OK -> adc_west_ret io = ESP_OK ->
  ledc_set_duty_ret io <> ESP_OK ->
  control_cycle io =
    ([Printf "Loop running...\n" []; AdcOneshotRead LDR_EAST_CH;
      AdcOneshotRead LDR_WEST_CH; LedcSetDuty (cycle_duty io); Abort], None).
Proof.
  intros HE HW HS. unfold control_cycle, read_ldr_values, set_servo_angle.
  rewrite (ESP_ERROR_CHECK_ok _ HE), (ESP_ERROR_CHECK_ok _ HW),
    (ESP_ERROR_CHECK_fails _ HS).
  reflexivity.
Qed.

Lemma control_cycle_update_duty_fails :
  adc_east_ret io = ESP_OK -> adc_west_ret io = ESP_OK ->
  ledc_set_duty_ret io = ESP_OK -> ledc_update_duty_ret io <> ESP_OK ->
  control_cycle io =
    ([Printf "Loop running...\n" []; AdcOneshotRead LDR_EAST_CH;
      AdcOneshotRead LDR_WEST_CH; LedcSetDuty (cycle_duty io);
      LedcUpdateDuty; Abort], None).
Proof.
  intros HE HW HS HU. unfold control_cycle, read_ldr_values, set_servo_angle.
  rewrite (ESP_ERROR_CHECK_ok _ HE), (ESP_ERROR_CHECK_ok _ HW),
    (ESP_ERROR_CHECK_ok _ HS), (ESP_ERROR_CHECK_fails _ HU).
  reflexivity.
Qed.

(** The iteration when the converter and the PWM driver succeed: the only
    trace of the HTTP answer is the line logged before the cleanup. *)
Lemma control_cycle_drivers_ok :
  drivers_ok io ->
  control_cycle io =
    ([Printf "Loop running...\n" []; AdcOneshotRead LDR_EAST_CH;
      AdcOneshotRead LDR_WEST_CH; LedcSetDuty (cycle_duty io); LedcUpdateDuty;
      Printf "E=%d W=%d  | SunDir=%d | Tilt=%d"
        [ArgInt (adc_east_raw io); ArgInt (adc_west_raw io);
         ArgInt (cycle_sun_dir io); ArgInt (cycle_tilt_angle io)];
      HttpClientInit
        (thingspeak_url (adc_east_raw io) (adc_west_raw io)
           (cycle_sun_dir io) (cycle_tilt_angle io))
        HTTP_METHOD_GET;
      HttpClientPerform;
      (if http_perform_ret io =? ESP_OK
       then Printf "\nThingSpeak update sent successfully\n" []
       else Printf "\nThingSpeak send failed: %s\n"
              [ArgErrName (http_perform_ret io)]);
      HttpClientCleanup; TaskDelay 15000],
     Some tt).
Proof.
  intros (HE & HW & HS & HU).
  unfold control_cycle, read_ldr_values, set_servo_angle, send_to_thingspeak.
  rewrite (ESP_ERROR_CHECK_ok _ HE), (ESP_ERROR_CHECK_ok _ HW),
    (ESP_ERROR_CHECK_ok _ HS), (ESP_ERROR_CHECK_ok _ HU).
  destruct (http_perform_ret io =? ESP_OK); reflexivity.
Qed.

Lemma drivers_ok_dec : {drivers_ok io} + {~ drivers_ok io}.
Proof.
  unfold drivers_ok.
  destruct (Z.eq_dec (adc_east_ret io) ESP_OK);
    destruct (Z.eq_dec (adc_west_ret io) ESP_OK);
    destruct (Z.eq_dec (ledc_set_duty_ret io) ESP_OK);
    destruct (Z.eq_dec (ledc_update_duty_ret io) ESP_OK);
    solve [left; auto | right; tauto].
Qed.

(** An iteration either completes or aborts, and it aborts exactly when a
    converter read or a PWM call fails. *)
Lemma control_cycle_result :
  (drivers_ok io -> result (control_cycle io) = Some tt) /\
  (~ drivers_ok io -> result (control_cycle io) = None).
Proof.
  split.
  - intros Hok. rewrite (control_cycle_drivers_ok Hok). reflexivity.
  - intros Hbad. unfold drivers_ok in Hbad.
    destruct (Z.eq_dec (adc_east_ret io) ESP_OK) as [HE|HE];
      [|rewrite (control_cycle_east_read_fails HE); reflexivity].
    destruct (Z.eq_dec (adc_west_ret io) ESP_OK) as [HW|HW];
      [|rewrite (control_cycle_west_read_fails HE HW); reflexivity].
    destruct (Z.eq_dec (ledc_set_duty_ret io) ESP_OK) as [HS|HS];
      [|rewrite (control_cycle_set_duty_fails HE HW HS); reflexivity].
    destruct (Z.eq_dec (ledc_update_duty_ret io) ESP_OK) as [HU|HU];
      [|rewrite (control_cycle_update_duty_fails HE HW HS HU); reflexivity].
    tauto.
Qed.

(** An aborted iteration ends with the abort and shows no event of the
    later steps: no status line, no HTTP request, no delay. *)
Lemma control_cycle_aborted_trace :
  ~ drivers_ok io ->
  exists t,
    trace (control_cycle io) = t ++ [Abort] /\
    (forall e, In e t ->
       e = Printf "Loop running...\n" [] \/
       e = AdcOneshotRead LDR_EAST_CH \/ e = AdcOneshotRead LDR_WEST_CH \/
       e = LedcSetDuty (cycle_duty io) \/ e = LedcUpdateDuty).
Proof.
  intros Hbad. unfold drivers_ok in Hbad.
  destruct (Z.eq_dec (adc_east_ret io) ESP_OK) as [HE|HE];
    [|rewrite (control_cycle_east_read_fails HE);
      exists [Printf "Loop running...\n" []; AdcOneshotRead LDR_EAST_CH];
      split; [reflexivity | simpl; intuition]].
  destruct (Z.eq_dec (adc_west_ret io) ESP_OK) as [HW|HW];
    [|rewrite (control_cycle_west_read_fails HE HW);
      exists [Printf "Loop running...\n" []; AdcOneshotRead LDR_EAST_CH;
              AdcOneshotRead LDR_WEST_CH];
      split; [reflexivity | simpl; intuition]].
  destruct (Z.eq_dec (ledc_set_duty_ret io) ESP_OK) as [HS|HS];
    [|rewrite (control_cycle_set_duty_fails HE HW HS);
      exists [Printf "Loop running...\n" []; AdcOneshotRead LDR_EAST_CH;
              AdcOneshotRead LDR_WEST_CH; LedcSetDuty (cycle_duty io)];
      split; [reflexivity | simpl; intuition]].
  destruct (Z.eq_dec (ledc_update_duty_ret io) ESP_OK) as [HU|HU];
    [|rewrite (control_cycle_update_duty_fails HE HW HS HU);
      exists [Printf "Loop running...\n" []; AdcOneshotRead LDR_EAST_CH;
              AdcOneshotRead LDR_WEST_CH; LedcSetDuty (cycle_duty io);
              LedcUpdateDuty];
      split; [reflexivity | simpl; intuition]].
  tauto.
Qed.

End ControlCycle.

(* ================================================================== *)
(** ** The main loop *)

Lemma app_main_loop_app (l1 l2 : list cycle_io) :
  app_main_loop (l1 ++ l2) = bind (app_main_loop l1) (fun _ => app_main_loop l2).
Proof.
  induction l1 as [|io l1 IH]; cbn [app app_main_loop].
  - rewrite bind_ret_l. reflexivity.
  - rewrite bind_assoc, IH. reflexivity.
Qed.

Lemma app_main_loop_cons_ok (io : cycle_io) (rest : list cycle_io) :
  drivers_ok io ->
  app_main_loop (io :: rest)
  = (trace (control_cycle io) ++ trace (app_main_loop rest),
     result (app_main_loop rest)).
Proof.
  intros Hok. simpl.
  apply (bind_returned (control_cycle io) (fun _ => app_main_loop rest) tt).
  apply control_cycle_result, Hok.
Qed.

Lemma app_main_loop_cons_aborts (io : cycle_io) (rest : list cycle_io) :
  ~ drivers_ok io ->
  app_main_loop (io :: rest) = (trace (control_cycle io), None).
Proof.
  intros Hbad. simpl. apply bind_aborted, control_cycle_result, Hbad.
Qed.

(** Whatever the drivers would answer after an aborted iteration is never
    asked for. *)
Lemma app_main_loop_stops (before after : list cycle_io) (io : cycle_io) :
  ~ drivers_ok io ->
  app_main_loop (before ++ io :: after) = app_main_loop (before ++ [io]).
Proof.
  intros Hbad. rewrite !app_main_loop_app.
  rewrite !(app_main_loop_cons_aborts io _ Hbad). reflexivity.
Qed.

Lemma app_main_loop_aborted (before after : list cycle_io) (io : cycle_io) :
  ~ drivers_ok io ->
  result (app_main_loop (before ++ io :: after)) = None.
Proof.
  intros Hbad. rewrite app_main_loop_app.
  rewrite (app_main_loop_cons_aborts io _ Hbad).
  destruct (app_main_loop before) as [t [[]|]]; reflexivity.
Qed.

Lemma app_main_loop_all_ok (ios : list cycle_io) :
  Forall drivers_ok ios -> result (app_main_loop ios) = Some tt.
Proof.
  induction 1 as [|io rest Hok _ IH]; [reflexivity|].
  rewrite (app_main_loop_cons_ok io rest Hok). exact IH.
Qed.

Lemma app_main_loop_reaches (before after : list cycle_io) :
  Forall drivers_ok before ->
  app_main_loop (before ++ after)
  = (trace (app_main_loop before) ++ trace (app_main_loop after),
     result (app_main_loop after)).
Proof.
  intros Hok. rewrite app_main_loop_app.
  apply (bind_returned (app_main_loop before) (fun _ => app_main_loop after) tt).
  apply app_main_loop_all_ok, Hok.
Qed.

(* ================================================================== *)
(** ** Actuator commands of a run *)

Lemma actuator_commands_app (t1 t2 : list event) :
  actuator_commands (t1 ++ t2) = actuator_commands t1 ++ actuator_commands t2.
Proof.
  induction t1 as [|e t1 IH]; [reflexivity|].
  destruct e; simpl; rewrite IH; reflexivity.
Qed.

Lemma control_cycle_actuator_commands (io : cycle_io) :
  actuator_commands (trace (control_cycle io)) = [] \/
  actuator_commands (trace (control_cycle io)) = [cycle_duty io].
Proof.
  destruct (drivers_ok_dec io) as [Hok | Hbad].
  - right. rewrite (control_cycle_drivers_ok io Hok).
    simpl. destruct (_ =? _); reflexivity.
  - unfold drivers_ok in Hbad.
    destruct (Z.eq_dec (adc_east_ret io) ESP_OK) as [HE|HE];
      [|left; rewrite (control_cycle_east_read_fails io HE); reflexivity].
    destruct (Z.eq_dec (adc_west_ret io) ESP_OK) as [HW|HW];
      [|left; rewrite (control_cycle_west_read_fails io HE HW); reflexivity].
    destruct (Z.eq_dec (ledc_set_duty_ret io) ESP_OK) as [HS|HS];
      [|right; rewrite (control_cycle_set_duty_fails io HE HW HS); reflexivity].
    destruct (Z.eq_dec (ledc_update_duty_ret io) ESP_OK) as [HU|HU];
      [|right; rewrite (control_cycle_update_duty_fails io HE HW HS HU);
        reflexivity].
    tauto.
Qed.

Lemma cycle_duty_values (io : cycle_io) :
  cycle_duty io = 334 \/ cycle_duty io = 593 \/ cycle_duty io = 853.
Proof.
  unfold cycle_duty, cycle_tilt_angle, cycle_sun_dir.
  destruct (pipeline_cases (adc_east_raw io) (adc_west_raw io))
    as [[_ H] | [[_ H] | [_ H]]]; auto.
Qed.

Lemma app_main_loop_actuator_commands (ios : list cycle_io) (d : Z) :
  In d (actuator_commands (trace (app_main_loop ios))) ->
  d = 334 \/ d = 593 \/ d = 853.
Proof.
  induction ios as [|io rest IH]; [intros []|].
  destruct (drivers_ok_dec io) as [Hok | Hbad].
  - rewrite (app_main_loop_cons_ok io rest Hok). unfold trace at 1. simpl fst.
    rewrite actuator_commands_app, in_app_iff. intros [Hin | Hin].
    + destruct (control_cycle_actuator_commands io) as [E | E];
        rewrite E in Hin; simpl in Hin; [tauto|].
      destruct Hin as [<- | []]. apply cycle_duty_values.
    + apply IH, Hin.
  - rewrite (app_main_loop_cons_aborts io rest Hbad). unfold trace at 1. simpl fst.
    intros Hin.
    destruct (control_cycle_actuator_commands io) as [E | E];
      rewrite E in Hin; simpl in Hin; [tauto|].
    destruct Hin as [<- | []]. apply cycle_duty_values.
Qed.

(** C10: whatever the two readings, the pipeline yields a tilt angle among
    30, 90 and 150 and the matching duty among 334, 593 and 853; no run of
    the main loop writes any other duty to the PWM channel. *)
Theorem pipeline_outputs (east west : Z) :
  ((compute_tilt_angle (detect_sun_direction east west) = 30 /\
    servo_duty (compute_tilt_angle (detect_sun_direction east west)) = 334) \/
   (compute_tilt_angle (detect_sun_direction east west) = 90 /\
    servo_duty (compute_tilt_angle (detect_sun_direction east west)) = 593) \/
   (compute_tilt_angle (detect_sun_direction east west) = 150 /\
    servo_duty (compute_tilt_angle (detect_sun_direction east west)) = 853)) /\
  (forall (ios : list cycle_io) (d : Z),
      In d (actuator_commands (trace (app_main_loop ios))) ->
      d = 334 \/ d = 593 \/ d = 853).
Proof.
  split; [apply pipeline_cases | apply app_main_loop_actuator_commands].
Qed.

(* ================================================================== *)
(** ** Failure policy *)

(** The answer of the HTTP transfer plays no part in an iteration that a
    converter read or a PWM call aborts. *)
Lemma control_cycle_aborts_before_uplink (io : cycle_io) (err : esp_err_t) :
  ~ drivers_ok io ->
  control_cycle (with_http_perform_ret io err) = control_cycle io.
Proof.
  intros Hbad. unfold drivers_ok in Hbad.
  destruct (Z.eq_dec (adc_east_ret io) ESP_OK) as [HE|HE];
    [|rewrite (control_cycle_east_read_fails io HE);
      apply control_cycle_east_read_fails; exact HE].
  destruct (Z.eq_dec (adc_west_ret io) ESP_OK) as [HW|HW];
    [|rewrite (control_cycle_west_read_fails io HE HW);
      apply control_cycle_west_read_fails; assumption].
  destruct (Z.eq_dec (ledc_set_duty_ret io) ESP_OK) as [HS|HS];
    [|rewrite (control_cycle_set_duty_fails io HE HW HS);
      apply (control_cycle_set_duty_fails (with_http_perform_ret io err));
      assumption].
  destruct (Z.eq_dec (ledc_update_duty_ret io) ESP_OK) as [HU|HU];
    [|rewrite (control_cycle_update_duty_fails io HE HW HS HU);
      apply (control_cycle_update_duty_fails (with_http_perform_ret io err));
      assumption].
  tauto.
Qed.

Lemma control_cycle_uplink_independent (io : cycle_io) (err : esp_err_t) :
  actuator_commands (trace (control_cycle (with_http_perform_ret io err)))
  = actuator_commands (trace (control_cycle io)) /\
  result (control_cycle (with_http_perform_ret io err))
  = result (control_cycle io).
Proof.
  destruct (drivers_ok_dec io) as [Hok | Hbad].
  - assert (Hok' : drivers_ok (with_http_perform_ret io err)) by exact Hok.
    rewrite (control_cycle_drivers_ok _ Hok'), (control_cycle_drivers_ok _ Hok).
    split; [|reflexivity]. simpl.
    destruct (err =? ESP_OK), (http_perform_ret io =? ESP_OK); reflexivity.
  - rewrite (control_cycle_aborts_before_uplink io err Hbad). split; reflexivity.
Qed.

(** C7: a failing HTTP transfer changes neither the duty written in that
    iteration nor whether the iteration completes; when the converter and
    the PWM driver succeed, the duty is written and updated first, the
    failure is only logged, the iteration ends with its delay and the loop
    goes on with the next iteration. *)
Theorem uplink_failure_not_fatal
  (io : cycle_io) (before rest : list cycle_io) :
  http_perform_ret io <> ESP_OK ->
  actuator_commands (trace (control_cycle io))
  = actuator_commands (trace (control_cycle (with_http_perform_ret io ESP_OK))) /\
  result (control_cycle io)
  = result (control_cycle (with_http_perform_ret io ESP_OK)) /\
  (drivers_ok io ->
   control_cycle io =
     ([Printf "Loop running...\n" []; AdcOneshotRead LDR_EAST_CH;
       AdcOneshotRead LDR_WEST_CH; LedcSetDuty (cycle_duty io); LedcUpdateDuty;
       Printf "E=%d W=%d  | SunDir=%d | Tilt=%d"
         [ArgInt (adc_east_raw io); ArgInt (adc_west_raw io);
          ArgInt (cycle_sun_dir io); ArgInt (cycle_tilt_angle io)];
       HttpClientInit
         (thingspeak_url (adc_east_raw io) (adc_west_raw io)
            (cycle_sun_dir io) (cycle_tilt_angle io))
         HTTP_METHOD_GET;
       HttpClientPerform;
       Printf "\nThingSpeak send failed: %s\n" [ArgErrName (http_perform_ret io)];
       HttpClientCleanup; TaskDelay 15000],
      Some tt) /\
   (Forall drivers_ok before ->
    app_main_loop (before ++ io :: rest)
    = (trace (app_main_loop before) ++ trace (control_cycle io)
         ++ trace (app_main_loop rest),
       result (app_main_loop rest)))).
Proof.
  intros Herr.
  destruct (control_cycle_uplink_independent io ESP_OK) as [Hcmd Hres].
  split; [symmetry; exact Hcmd | split; [symmetry; exact Hres |]].
  intros Hok. split.
  - rewrite (control_cycle_drivers_ok io Hok).
    destruct (Z.eqb_spec (http_perform_ret io) ESP_OK); [contradiction|].
    reflexivity.
  - intros Hbefore. rewrite (app_main_loop_reaches before (io :: rest) Hbefore).
    rewrite (app_main_loop_cons_ok io rest Hok). reflexivity.
Qed.

Lemma uplink_failure_not_fatal_witness :
  actuator_commands
    (trace (control_cycle (mk_cycle_io 0 2000 0 1500 0 0 (-1)))) = [334] /\
  result (control_cycle (mk_cycle_io 0 2000 0 1500 0 0 (-1))) = Some tt.
Proof.
  assert (Herr : http_perform_ret (mk_cycle_io 0 2000 0 1500 0 0 (-1)) <> ESP_OK)
    by (vm_compute; discriminate).
  destruct (uplink_failure_not_fatal
              (mk_cycle_io 0 2000 0 1500 0 0 (-1)) [] [] Herr)
    as (Hcmd & Hres & _).
  split; [rewrite Hcmd | rewrite Hres]; vm_compute; reflexivity.
Defined.

(** C8: a failing converter read or PWM call aborts the process at that
    call: the iteration returns nothing, its trace stops at the failing
    call followed by the abort, and no later iteration runs. *)
Theorem driver_failure_aborts_process
  (io : cycle_io) (before after : list cycle_io) :
  adc_east_ret io <> ESP_OK \/ adc_west_ret io <> ESP_OK \/
  ledc_set_duty_ret io <> ESP_OK \/ ledc_update_duty_ret io <> ESP_OK ->
  result (control_cycle io) = None /\
  (adc_east_ret io <> ESP_OK ->
   trace (control_cycle io) =
     [Printf "Loop running...\n" []; AdcOneshotRead LDR_EAST_CH; Abort]) /\
  (adc_east_ret io = ESP_OK -> adc_west_ret io <> ESP_OK ->
   trace (control_cycle io) =
     [Printf "Loop running...\n" []; AdcOneshotRead LDR_EAST_CH;
      AdcOneshotRead LDR_WEST_CH; Abort]) /\
  (adc_east_ret io = ESP_OK -> adc_west_ret io = ESP_OK ->
   ledc_set_duty_ret io <> ESP_OK ->
   trace (control_cycle io) =
     [Printf "Loop running...\n" []; AdcOneshotRead LDR_EAST_CH;
      AdcOneshotRead LDR_WEST_CH; LedcSetDuty (cycle_duty io); Abort]) /\
  (adc_east_ret io = ESP_OK -> adc_west_ret io = ESP_OK ->
   ledc_set_duty_ret io = ESP_OK -> ledc_update_duty_ret io <> ESP_OK ->
   trace (control_cycle io) =
     [Printf "Loop running...\n" []; AdcOneshotRead LDR_EAST_CH;
      AdcOneshotRead LDR_WEST_CH; LedcSetDuty (cycle_duty io);
      LedcUpdateDuty; Abort]) /\
  app_main_loop (before ++ io :: after) = app_main_loop (before ++ [io]) /\
  result (app_main_loop (before ++ io :: after)) = None /\
  (Forall drivers_ok before ->
   trace (app_main_loop (before ++ io :: after))
   = trace (app_main_loop before) ++ trace (control_cycle io)).
Proof.
  intros Hfail.
  assert (Hbad : ~ drivers_ok io) by (unfold drivers_ok; tauto).
  split; [apply control_cycle_result, Hbad|].
  split; [intros HE; rewrite (control_cycle_east_read_fails io HE); reflexivity|].
  split; [intros HE HW;
          rewrite (control_cycle_west_read_fails io HE HW); reflexivity|].
  split; [intros HE HW HS;
          rewrite (control_cycle_set_duty_fails io HE HW HS); reflexivity|].
  split; [intros HE HW HS HU;
          rewrite (control_cycle_update_duty_fails io HE HW HS HU); reflexivity|].
  split; [apply app_main_loop_stops, Hbad|].
  split; [apply app_main_loop_aborted, Hbad|].
  intros Hok. rewrite (app_main_loop_reaches before (io :: after) Hok).
  rewrite (app_main_loop_cons_aborts io after Hbad). reflexivity.
Qed.

Lemma driver_failure_aborts_process_witness :
  app_main_loop [mk_cycle_io 0 1800 0 1850 0 0 0;
                 mk_cycle_io 0 2000 0 1500 259 0 0;
                 mk_cycle_io 0 1000 0 1600 0 0 0]
  = app_main_loop [mk_cycle_io 0 1800 0 1850 0 0 0;
                   mk_cycle_io 0 2000 0 1500 259 0 0] /\
  result (app_main_loop [mk_cycle_io 0 1800 0 1850 0 0 0;
                         mk_cycle_io 0 2000 0 1500 259 0 0;
                         mk_cycle_io 0 1000 0 1600 0 0 0]) = None.
Proof.
  assert (Hfail :
    adc_east_ret (mk_cycle_io 0 2000 0 1500 259 0 0) <> ESP_OK \/
    adc_west_ret (mk_cycle_io 0 2000 0 1500 259 0 0) <> ESP_OK \/
    ledc_set_duty_ret (mk_cycle_io 0 2000 0 1500 259 0 0) <> ESP_OK \/
    ledc_update_duty_ret (mk_cycle_io 0 2000 0 1500 259 0 0) <> ESP_OK)
    by (right; right; left; vm_compute; discriminate).
  destruct (driver_failure_aborts_process
              (mk_cycle_io 0 2000 0 1500 259 0 0)
              [mk_cycle_io 0 1800 0 1850 0 0 0]
              [mk_cycle_io 0 1000 0 1600 0 0 0] Hfail)
    as (_ & _ & _ & _ & _ & Hstop & Hres & _).
  split; [exact Hstop | exact Hres].
Defined.

(* ================================================================== *)
(** ** Telemetry: the request URL *)

Lemma string_length_append (s1 s2 : string) :
  String.length (s1 ++ s2) = (String.length s1 + String.length s2)%nat.
Proof. induction s1 as [|c s1 IH]; simpl; [|rewrite IH]; reflexivity. Qed.

Lemma string_append_assoc (s1 s2 s3 : string) :
  ((s1 ++ s2) ++ s3 = s1 ++ (s2 ++ s3))%string.
Proof. induction s1 as [|c s1 IH]; simpl; [|rewrite IH]; reflexivity. Qed.

Lemma substring_whole (s : string) (n : nat) :
  (String.length s <= n)%nat -> substring 0 n s = s.
Proof.
  revert n. induction s as [|c s IH]; intros n Hn.
  - destruct n; reflexivity.
  - destruct n as [|n]; simpl in *; [lia|]. rewrite IH by lia. reflexivity.
Qed.

Lemma dec_digits_length (fuel : nat) (n : Z) (acc : string) :
  (String.length (dec_digits fuel n acc) <= fuel + String.length acc)%nat.
Proof.
  revert n acc. induction fuel as [|fuel IH]; intros n acc; simpl; [lia|].
  destruct (n / 10 =? 0); simpl; [lia|].
  specialize (IH (n / 10) (String (digit_char (n mod 10)) acc)).
  simpl in IH. lia.
Qed.

Example fmt_d_samples :
  fmt_d 0 = "0"%string /\ fmt_d 4095 = "4095"%string /\
  fmt_d (-50) = "-50"%string /\ fmt_d Int.INT_MIN = "-2147483648"%string.
Proof. repeat split; reflexivity. Qed.

(** A formatted [int] takes at most eleven characters. *)
Lemma fmt_d_length (z : Z) : (String.length (fmt_d z) <= 11)%nat.
Proof.
  unfold fmt_d. destruct (z <? 0).
  - pose proof (dec_digits_length 10 (- z) EmptyString).
    cbn [String.length] in *. lia.
  - pose proof (dec_digits_length 10 z EmptyString).
    cbn [String.length] in *. lia.
Qed.

(** The buffer of 256 characters never truncates the URL. *)
Lemma thingspeak_url_not_truncated (east west sun angle : Z) :
  thingspeak_url east west sun angle = thingspeak_query east west sun angle.
Proof.
  unfold thingspeak_url, snprintf. apply substring_whole.
  unfold thingspeak_query. rewrite !string_length_append.
  pose proof (fmt_d_length east). pose proof (fmt_d_length west).
  pose proof (fmt_d_length sun). pose proof (fmt_d_length angle).
  change (String.length "http://api.thingspeak.com/update?api_key=") with 41%nat.
  change (String.length THINGSPEAK_API_KEY) with 16%nat.
  change (String.length "&field1=") with 8%nat.
  change (String.length "&field2=") with 8%nat.
  change (String.length "&field3=") with 8%nat.
  change (String.length "&field4=") with 8%nat.
  lia.
Qed.

Lemma dec_digits_acc (fuel : nat) (n : Z) (acc : string) :
  dec_digits fuel n acc = (dec_digits fuel n EmptyString ++ acc)%string.
Proof.
  revert n acc. induction fuel as [|fuel IH]; intros n acc; simpl; [reflexivity|].
  destruct (n / 10 =? 0); [reflexivity|].
  rewrite (IH (n / 10) (String _ acc)), (IH (n / 10) (String _ EmptyString)).
  rewrite string_append_assoc. reflexivity.
Qed.

Lemma value_of_digits_app (s1 s2 : string) (acc : Z) :
  value_of_digits (s1 ++ s2) acc = value_of_digits s2 (value_of_digits s1 acc).
Proof.
  revert acc. induction s1 as [|c s1 IH]; intros acc; simpl;
    [reflexivity | apply IH].
Qed.

Lemma digit_char_value (d : Z) :
  0 <= d < 10 -> Z.of_N (N_of_ascii (digit_char d)) - 48 = d.
Proof.
  intros Hd. unfold digit_char.
  rewrite N_ascii_embedding by lia. lia.
Qed.

Lemma dec_digits_value (fuel : nat) (n : Z) :
  0 <= n < 10 ^ Z.of_nat fuel ->
  value_of_digits (dec_digits fuel n EmptyString) 0 = n.
Proof.
  revert n. induction fuel as [|fuel IH]; intros n Hn.
  - simpl in *. lia.
  - rewrite Nat2Z.inj_succ, Z.pow_succ_r in Hn by lia.
    pose proof (Z.mod_pos_bound n 10 eq_refl) as Hmod.
    pose proof (Z.div_mod n 10 ltac:(lia)) as Hdm.
    cbn [dec_digits]. destruct (Z.eqb_spec (n / 10) 0) as [Hq | Hq].
    + cbn [value_of_digits]. rewrite digit_char_value by exact Hmod. lia.
    + rewrite dec_digits_acc, value_of_digits_app.
      rewrite IH.
      * cbn [value_of_digits]. rewrite digit_char_value by exact Hmod. lia.
      * split; [apply Z.div_pos; lia|].
        apply Z.div_lt_upper_bound; lia.
Qed.

Lemma dec_digits_head (fuel : nat) (n : Z) (acc : string) :
  0 <= n ->
  match dec_digits (S fuel) n acc with
  | String c _ => c <> "-"%char
  | EmptyString => False
  end.
Proof.
  intros Hn. rewrite dec_digits_acc.
  assert (Hgen : forall f m a, 0 <= m ->
            match dec_digits (S f) m a with
            | String c _ => exists d, 0 <= d < 10 /\ c = digit_char d
            | EmptyString => False
            end).
  { induction f as [|f IHf]; intros m a Hm.
    - cbn [dec_digits]. pose proof (Z.mod_pos_bound m 10 eq_refl).
      destruct (m / 10 =? 0); eauto.
    - change (dec_digits (S (S f)) m a)
        with (if m / 10 =? 0 then String (digit_char (m mod 10)) a
              else dec_digits (S f) (m / 10) (String (digit_char (m mod 10)) a)).
      pose proof (Z.mod_pos_bound m 10 eq_refl).
      destruct (m / 10 =? 0); [eauto|].
      apply IHf. apply Z.div_pos; lia. }
  specialize (Hgen fuel n EmptyString Hn).
  destruct (dec_digits (S fuel) n EmptyString) as [|c s]; [contradiction|].
  destruct Hgen as (d & Hd & ->). simpl.
  assert (Hcases : d = 0 \/ d = 1 \/ d = 2 \/ d = 3 \/ d = 4 \/ d = 5 \/
                   d = 6 \/ d = 7 \/ d = 8 \/ d = 9) by lia.
  repeat (destruct Hcases as [-> | Hcases]; [vm_compute; discriminate|]).
  subst d. vm_compute; discriminate.
Qed.

(** [fmt_d] prints every [int] as the decimal numeral of its value. *)
Lemma fmt_d_value (z : Z) : Int.in_int z -> value_of_numeral (fmt_d z) = z.
Proof.
  intros Hz. unfold fmt_d. destruct (Z.ltb_spec z 0) as [Hneg | Hpos].
  - unfold value_of_numeral. rewrite dec_digits_value; [lia|].
    change (10 ^ Z.of_nat 10) with 10000000000. int_range.
  - pose proof (dec_digits_head 9 z EmptyString Hpos) as Hhead.
    pose proof (dec_digits_value 10 z) as Hval.
    unfold value_of_numeral.
    destruct (dec_digits 10 z EmptyString) as [|c s]; [contradiction|].
    destruct (Ascii.eqb_spec c "-"%char) as [-> | Hc]; [contradiction|].
    assert (Hsame : match c with
                    | "-"%char => - value_of_digits s 0
                    | _ => value_of_digits (String c s) 0
                    end = value_of_digits (String c s) 0).
    { destruct c as [[] [] [] [] [] [] [] []]; try reflexivity.
      exfalso. apply Hc. reflexivity. }
    rewrite Hsame. apply Hval.
    change (10 ^ Z.of_nat 10) with 10000000000. int_range.
Qed.

Lemma send_to_thingspeak_trace (io : cycle_io) (east west sun angle : Z) :
  send_to_thingspeak io east west sun angle =
    ([HttpClientInit (thingspeak_url east west sun angle) HTTP_METHOD_GET;
      HttpClientPerform;
      (if http_perform_ret io =? ESP_OK
       then Printf "\nThingSpeak update sent successfully\n" []
       else Printf "\nThingSpeak send failed: %s\n"
              [ArgErrName (http_perform_ret io)]);
      HttpClientCleanup],
     Some tt).
Proof.
  unfold send_to_thingspeak. destruct (http_perform_ret io =? ESP_OK); reflexivity.
Qed.

Example thingspeak_url_east :
  thingspeak_url 2000 1500 SUN_EAST 30
  = "http://api.thingspeak.com/update?api_key=JA0W2AWRBR5KH8ZF&field1=2000&field2=1500&field3=0&field4=30"%string.
Proof. reflexivity. Qed.

(** C9: the telemetry of an iteration is one HTTP GET of the fixed
    endpoint whose query carries the API key, the east reading as field1,
    the west reading as field2, the direction as field3 and the angle as
    field4, each as the decimal numeral of its value; the direction is
    sent as its code, 0 for East, 1 for Overhead and 2 for West. *)
Theorem telemetry_request (io : cycle_io) (east west sun angle : Z) :
  thingspeak_url east west sun angle
  = ("http://api.thingspeak.com/update?api_key=JA0W2AWRBR5KH8ZF&field1="
     ++ fmt_d east ++ "&field2=" ++ fmt_d west
     ++ "&field3=" ++ fmt_d sun ++ "&field4=" ++ fmt_d angle)%string /\
  http_requests (trace (send_to_thingspeak io east west sun angle))
  = [(HTTP_METHOD_GET, thingspeak_url east west sun angle)] /\
  http_transfers (trace (send_to_thingspeak io east west sun angle)) = 1%nat /\
  (drivers_ok io ->
   http_requests (trace (control_cycle io))
   = [(HTTP_METHOD_GET,
       thingspeak_url (adc_east_raw io) (adc_west_raw io)
         (detect_sun_direction (adc_east_raw io) (adc_west_raw io))
         (compute_tilt_angle
            (detect_sun_direction (adc_east_raw io) (adc_west_raw io))))] /\
   http_transfers (trace (control_cycle io)) = 1%nat) /\
  (fmt_d SUN_EAST = "0"%string /\ fmt_d SUN_OVERHEAD = "1"%string /\
   fmt_d SUN_WEST = "2"%string) /\
  (detect_sun_direction east west = SUN_EAST \/
   detect_sun_direction east west = SUN_OVERHEAD \/
   detect_sun_direction east west = SUN_WEST) /\
  (forall z : Z, Int.in_int z -> value_of_numeral (fmt_d z) = z).
Proof.
  split; [rewrite thingspeak_url_not_truncated; reflexivity|].
  split; [rewrite send_to_thingspeak_trace; simpl;
          destruct (_ =? _); reflexivity|].
  split; [rewrite send_to_thingspeak_trace; simpl;
          destruct (_ =? _); reflexivity|].
  split.
  - intros Hok. rewrite (control_cycle_drivers_ok io Hok). simpl.
    destruct (_ =? _); split; reflexivity.
  - split; [repeat split; reflexivity|].
    split; [apply classify_codes | apply fmt_d_value].
Qed.

(* ================================================================== *)
(** ** Further properties of [clamp_int] *)

(** X1: with ordered bounds [clamp_int] answers a value of [lo, hi]; it
    leaves [v] unchanged exactly when [v] already lies there, and answers
    the nearer bound otherwise. *)
Theorem clamp_int_ordered_bounds (v lo hi : Z) :
  lo <= hi ->
  lo <= clamp_int v lo hi <= hi /\
  (clamp_int v lo hi = v <-> lo <= v <= hi) /\
  (v < lo -> clamp_int v lo hi = lo) /\
  (hi < v -> clamp_int v lo hi = hi).
Proof.
  intros Hle. unfold clamp_int.
  destruct (Z.ltb_spec v lo); destruct (Z.gtb_spec v hi);
    repeat split; intros; lia.
Qed.

Lemma clamp_int_ordered_bounds_witness :
  0 <= 180 /\ 0 <= clamp_int 200 0 180 <= 180 /\ clamp_int 200 0 180 = 180.
Proof.
  assert (H : 0 <= 180) by lia.
  destruct (clamp_int_ordered_bounds 200 0 180 H) as (Hr & _ & _ & Hhi).
  split; [exact H | split; [exact Hr | apply Hhi; lia]].
Defined.

(** X2: with inverted bounds ([hi < lo]) [clamp_int] never answers [v]
    from between them: it answers [lo] below [lo] and [hi] from [lo] on, so
    the result is one of the two bounds. *)
Theorem clamp_int_inverted_bounds (v lo hi : Z) :
  hi < lo ->
  (v < lo -> clamp_int v lo hi = lo) /\
  (lo <= v -> clamp_int v lo hi = hi) /\
  (clamp_int v lo hi = lo \/ clamp_int v lo hi = hi).
Proof.
  intros Hinv. unfold clamp_int.
  destruct (Z.ltb_spec v lo); destruct (Z.gtb_spec v hi);
    repeat split; intros; try lia; auto.
Qed.

Lemma clamp_int_inverted_bounds_witness :
  0 < 10 /\ clamp_int 5 10 0 = 10 /\ clamp_int 20 10 0 = 0.
Proof.
  assert (H : 0 < 10) by lia.
  split; [exact H | split].
  - apply (proj1 (clamp_int_inverted_bounds 5 10 0 H)). lia.
  - apply (proj1 (proj2 (clamp_int_inverted_bounds 20 10 0 H))). lia.
Defined.

(** X3: with ordered bounds [clamp_int] is monotone in the clamped value
    and idempotent. *)
Theorem clamp_int_monotone_idempotent (a b lo hi : Z) :
  lo <= hi ->
  (a <= b -> clamp_int a lo hi <= clamp_int b lo hi) /\
  clamp_int (clamp_int a lo hi) lo hi = clamp_int a lo hi.
Proof.
  intros Hle. split.
  - intros Hab. apply clamp_int_monotone; assumption.
  - apply clamp_int_idempotent, Hle.
Qed.

Lemma clamp_int_monotone_idempotent_witness :
  clamp_int (-10) 0 180 <= clamp_int 90 0 180 /\
  clamp_int (clamp_int (-10) 0 180) 0 180 = clamp_int (-10) 0 180.
Proof.
  assert (H : 0 <= 180) by lia.
  destruct (clamp_int_monotone_idempotent (-10) 90 0 180 H) as [Hm Hi].
  split; [apply Hm; lia | exact Hi].
Defined.

(* ================================================================== *)
(** ** Further properties of the servo arithmetic of [set_servo_angle] *)

Lemma servo_pulse_width_us_exact (angle : Z) :
  servo_pulse_width_us angle = 500 + Z.quot (clamp_int angle 0 180 * 1900) 180.
Proof.
  unfold servo_pulse_width_us.
  pose proof (clamp_int_range angle 0 180 ltac:(lia)) as Hc.
  rewrite pulse_width_us_exact; try exact Hc;
    unfold SERVO_MIN_US, SERVO_MAX_US; try int_range.
  reflexivity.
Qed.

Lemma servo_pulse_width_us_range (angle : Z) :
  500 <= servo_pulse_width_us angle <= 2400.
Proof.
  unfold servo_pulse_width_us.
  pose proof (clamp_int_range angle 0 180 ltac:(lia)) as Hc.
  apply (pulse_width_us_range 500 2400); try exact Hc; int_range.
Qed.

Lemma servo_pulse_width_us_monotone (a1 a2 : Z) :
  a1 <= a2 -> servo_pulse_width_us a1 <= servo_pulse_width_us a2.
Proof.
  intros H12. unfold servo_pulse_width_us.
  pose proof (clamp_int_range a1 0 180 ltac:(lia)).
  pose proof (clamp_int_range a2 0 180 ltac:(lia)).
  pose proof (clamp_int_monotone a1 a2 0 180 ltac:(lia) H12).
  apply (pulse_width_us_monotone 500 2400); try int_range; lia.
Qed.

Lemma servo_duty_endpoints : servo_duty 0 = 204 /\ servo_duty 180 = 982.
Proof. split; vm_compute; reflexivity. Qed.

Lemma servo_arithmetic_never_wraps_aux (angle : Z) :
  servo_pulse_width_us angle = 500 + Z.quot (clamp_int angle 0 180 * 1900) 180 /\
  servo_duty angle = Z.quot (servo_pulse_width_us angle * 8191) 20000.
Proof.
  split; [apply servo_pulse_width_us_exact|].
  rewrite servo_duty_exact, servo_pulse_width_us_exact. reflexivity.
Qed.

(** X4: whatever [int] angle [set_servo_angle] is given, the pulse width
    it computes lies in [500, 2400] microseconds and the duty it writes
    lies in [204, 982], well inside the 13-bit range [0, 8191]. *)
Theorem servo_output_envelope (angle : Z) :
  500 <= servo_pulse_width_us angle <= 2400 /\
  204 <= servo_duty angle <= 982 /\
  (forall io d,
      In d (actuator_commands (trace (set_servo_angle io angle))) ->
      204 <= d <= 982).
Proof.
  assert (Hduty : 204 <= servo_duty angle <= 982).
  { unfold servo_duty. rewrite to_pulse_clamp_eq.
    fold (servo_duty (clamp_int angle 0 180)).
    pose proof (clamp_int_range angle 0 180 ltac:(lia)) as Hc.
    destruct servo_duty_endpoints as [H0 H180].
    pose proof (servo_duty_monotone 0 (clamp_int angle 0 180) ltac:(lia)).
    pose proof (servo_duty_monotone (clamp_int angle 0 180) 180 ltac:(lia)).
    lia. }
  split; [apply servo_pulse_width_us_range | split; [exact Hduty|]].
  intros io d. unfold set_servo_angle, ESP_ERROR_CHECK.
  fold (to_pulse SERVO_MIN_US SERVO_MAX_US SERVO_PERIOD_US SERVO_MAX_DUTY angle).
  fold (servo_duty angle).
  destruct (ledc_set_duty_ret io =? ESP_OK);
    destruct (ledc_update_duty_ret io =? ESP_OK); simpl;
    intros [<- | []]; exact Hduty.
Qed.

(** X5: no operation of [set_servo_angle] overflows: for every [int]
    angle the pulse width and the duty are those of exact integer
    arithmetic with truncating division on the clamped angle. *)
Theorem servo_arithmetic_never_wraps (angle : Z) :
  servo_pulse_width_us angle
  = 500 + Z.quot (clamp_int angle 0 180 * (2400 - 500)) 180 /\
  servo_duty angle = Z.quot (servo_pulse_width_us angle * 8191) 20000.
Proof.
  split.
  - rewrite servo_pulse_width_us_exact. reflexivity.
  - rewrite servo_duty_exact, servo_pulse_width_us_exact. reflexivity.
Qed.

(** X6: over all [int] angles, not only [0, 180], a larger angle never
    gives a smaller pulse width or duty. *)
Theorem servo_monotone_everywhere (a1 a2 : Z) :
  a1 <= a2 ->
  servo_pulse_width_us a1 <= servo_pulse_width_us a2 /\
  servo_duty a1 <= servo_duty a2.
Proof.
  intros H12. split;
    [apply servo_pulse_width_us_monotone | apply servo_duty_monotone]; exact H12.
Qed.

Lemma servo_monotone_everywhere_witness :
  servo_pulse_width_us (-40) <= servo_pulse_width_us 500 /\
  servo_duty (-40) <= servo_duty 500.
Proof. apply (servo_monotone_everywhere (-40) 500). lia. Defined.

(** X7: for an angle in [0, 180] the pulse width is the linear
    interpolation between 500 and 2400 rounded down, less than one
    microsecond below the exact line, and the duty is the pulse width
    scaled by 8191/20000 rounded down. *)
Theorem servo_interpolation_accuracy (angle : Z) :
  0 <= angle <= 180 ->
  180 * (servo_pulse_width_us angle - 500) <= 1900 * angle
    < 180 * (servo_pulse_width_us angle - 500) + 180 /\
  20000 * servo_duty angle <= 8191 * servo_pulse_width_us angle
    < 20000 * servo_duty angle + 20000.
Proof.
  intros Ha.
  destruct (servo_arithmetic_never_wraps_aux angle) as [Hpw Hduty].
  rewrite (clamp_int_inside angle 0 180 Ha) in Hpw.
  pose proof (servo_pulse_width_us_range angle) as Hrange.
  rewrite Hduty. rewrite Hpw at 1 2.
  rewrite !Z.quot_div_nonneg by lia.
  pose proof (Z.div_mod (angle * 1900) 180 ltac:(lia)).
  pose proof (Z.mod_pos_bound (angle * 1900) 180 ltac:(lia)).
  pose proof (Z.div_mod (servo_pulse_width_us angle * 8191) 20000 ltac:(lia)).
  pose proof (Z.mod_pos_bound (servo_pulse_width_us angle * 8191) 20000 ltac:(lia)).
  lia.
Qed.

Lemma servo_interpolation_accuracy_witness :
  180 * (servo_pulse_width_us 30 - 500) <= 1900 * 30
    < 180 * (servo_pulse_width_us 30 - 500) + 180.
Proof.
  apply (servo_interpolation_accuracy 30). lia.
Defined.

(* ================================================================== *)
(** ** Further properties of the tilt policy and of the classifier *)

(** X8: every angle [compute_tilt_angle] can answer, also for an unknown
    direction code, lies in [30, 150]; the clamp of [set_servo_angle]
    therefore never changes an angle of the policy, and the duty written
    is that of the angle itself. *)
Theorem tilt_angle_needs_no_clamp (d : Z) :
  30 <= compute_tilt_angle d <= 150 /\
  clamp_int (compute_tilt_angle d) 0 180 = compute_tilt_angle d /\
  servo_duty (compute_tilt_angle d)
  = duty_of_pulse SERVO_PERIOD_US SERVO_MAX_DUTY
      (pulse_width_us SERVO_MIN_US SERVO_MAX_US (compute_tilt_angle d)).
Proof.
  assert (Hr : 30 <= compute_tilt_angle d <= 150).
  { unfold compute_tilt_angle.
    destruct (d =? SUN_EAST); [lia|]. destruct (d =? SUN_WEST); lia. }
  assert (Hc : clamp_int (compute_tilt_angle d) 0 180 = compute_tilt_angle d)
    by (apply clamp_int_inside; lia).
  split; [exact Hr | split; [exact Hc|]].
  unfold servo_duty, to_pulse. rewrite Hc. reflexivity.
Qed.

Lemma detect_sun_direction_cases (east west : Z) :
  Int.in_int (east - west) ->
  detect_sun_direction east west =
    if east - west >? 150 then SUN_EAST
    else if east - west <? -150 then SUN_WEST
    else SUN_OVERHEAD.
Proof.
  intros Hd. unfold detect_sun_direction. rewrite classify_cases.
  - reflexivity.
  - unfold LDR_THRESHOLD. int_range.
  - exact Hd.
Qed.

Lemma tilt_of_difference (east west : Z) :
  Int.in_int (east - west) ->
  compute_tilt_angle (detect_sun_direction east west) =
    if east - west >? 150 then 30
    else if east - west <? -150 then 150
    else 90.
Proof.
  intros Hd. rewrite (detect_sun_direction_cases east west Hd).
  destruct (_ >? _); [reflexivity|]. destruct (_ <? _); reflexivity.
Qed.

(** X9: exchanging the two readings mirrors the decision: East becomes
    West and back, Overhead stays, and the tilt angle becomes its
    reflection about 90 degrees, whenever both differences fit in an
    [int] (as for all non-negative readings). *)
Theorem pipeline_mirror_symmetry (east west : Z) :
  Int.in_int (east - west) -> Int.in_int (west - east) ->
  (detect_sun_direction east west = SUN_EAST
     <-> detect_sun_direction west east = SUN_WEST) /\
  (detect_sun_direction east west = SUN_OVERHEAD
     <-> detect_sun_direction west east = SUN_OVERHEAD) /\
  compute_tilt_angle (detect_sun_direction west east)
  = 180 - compute_tilt_angle (detect_sun_direction east west).
Proof.
  intros H1 H2.
  rewrite (tilt_of_difference east west H1), (tilt_of_difference west east H2).
  rewrite (detect_sun_direction_cases east west H1),
    (detect_sun_direction_cases west east H2).
  unfold SUN_EAST, SUN_WEST, SUN_OVERHEAD.
  destruct (Z.gtb_spec (east - west) 150);
    destruct (Z.ltb_spec (east - west) (-150));
    destruct (Z.gtb_spec (west - east) 150);
    destruct (Z.ltb_spec (west - east) (-150));
    repeat split; intros; try lia; try discriminate.
Qed.

Lemma pipeline_mirror_symmetry_witness :
  compute_tilt_angle (detect_sun_direction 1500 2000)
  = 180 - compute_tilt_angle (detect_sun_direction 2000 1500).
Proof.
  apply (pipeline_mirror_symmetry 2000 1500); vm_compute; split; discriminate.
Defined.

(** X10: the tilt angle and the duty never grow when the difference
    [east - west] grows: more light on the east sensor never turns the
    canopy further west (for differences that fit in an [int]). *)
Theorem tilt_antitone_in_difference (e1 w1 e2 w2 : Z) :
  Int.in_int (e1 - w1) -> Int.in_int (e2 - w2) ->
  e1 - w1 <= e2 - w2 ->
  compute_tilt_angle (detect_sun_direction e2 w2)
    <= compute_tilt_angle (detect_sun_direction e1 w1) /\
  servo_duty (compute_tilt_angle (detect_sun_direction e2 w2))
    <= servo_duty (compute_tilt_angle (detect_sun_direction e1 w1)).
Proof.
  intros H1 H2 Hle.
  assert (Ht : compute_tilt_angle (detect_sun_direction e2 w2)
               <= compute_tilt_angle (detect_sun_direction e1 w1)).
  { rewrite (tilt_of_difference e1 w1 H1), (tilt_of_difference e2 w2 H2).
    destruct (Z.gtb_spec (e1 - w1) 150);
      destruct (Z.ltb_spec (e1 - w1) (-150));
      destruct (Z.gtb_spec (e2 - w2) 150);
      destruct (Z.ltb_spec (e2 - w2) (-150)); lia. }
  split; [exact Ht | apply servo_duty_monotone, Ht].
Qed.

Lemma tilt_antitone_in_difference_witness :
  compute_tilt_angle (detect_sun_direction 2000 1500)
    <= compute_tilt_angle (detect_sun_direction 1800 1850).
Proof.
  apply (tilt_antitone_in_difference 1800 1850 2000 1500);
    vm_compute; try split; discriminate.
Defined.

(** X11: for non-negative readings (all the converter delivers) the duty
    the pipeline computes is 334 exactly when [east - west > 150], 853
    exactly when [east - west < -150], and 593 exactly when the
    difference is within 150 of zero. *)
Theorem pipeline_duty_on_readings (east west : Z) :
  0 <= east <= Int.INT_MAX -> 0 <= west <= Int.INT_MAX ->
  (servo_duty (compute_tilt_angle (detect_sun_direction east west)) = 334
     <-> east - west > 150) /\
  (servo_duty (compute_tilt_angle (detect_sun_direction east west)) = 853
     <-> east - west < -150) /\
  (servo_duty (compute_tilt_angle (detect_sun_direction east west)) = 593
     <-> -150 <= east - west <= 150).
Proof.
  intros He Hw.
  rewrite (tilt_of_difference east west
             (readings_difference_in_int east west He Hw)).
  destruct (Z.gtb_spec (east - west) 150);
    [|destruct (Z.ltb_spec (east - west) (-150))].
  - change (servo_duty 30) with 334. repeat split; intros; try lia; discriminate.
  - change (servo_duty 150) with 853. repeat split; intros; try lia; discriminate.
  - change (servo_duty 90) with 593. repeat split; intros; try lia; discriminate.
Qed.

Lemma pipeline_duty_on_readings_witness :
  servo_duty (compute_tilt_angle (detect_sun_direction 4095 0)) = 334
    <-> 4095 - 0 > 150.
Proof.
  apply (pipeline_duty_on_readings 4095 0); vm_compute; split; discriminate.
Defined.

(* ================================================================== *)
(** ** Further properties of the telemetry URL of [send_to_thingspeak] *)

Lemma thingspeak_query_length (east west sun angle : Z) :
  (String.length (thingspeak_query east west sun angle) <= 133)%nat.
Proof.
  unfold thingspeak_query. rewrite !string_length_append.
  pose proof (fmt_d_length east). pose proof (fmt_d_length west).
  pose proof (fmt_d_length sun). pose proof (fmt_d_length angle).
  change (String.length "http://api.thingspeak.com/update?api_key=") with 41%nat.
  change (String.length THINGSPEAK_API_KEY) with 16%nat.
  change (String.length "&field1=") with 8%nat.
  change (String.length "&field2=") with 8%nat.
  change (String.length "&field3=") with 8%nat.
  change (String.length "&field4=") with 8%nat.
  lia.
Qed.

(** X12: the 256-byte buffer of [send_to_thingspeak] is never too small:
    whatever four [int] values are formatted, the URL has at most 133
    characters and [snprintf] stores it whole. *)
Theorem thingspeak_url_fits_buffer (east west sun angle : Z) :
  (String.length (thingspeak_query east west sun angle) <= 133)%nat /\
  (String.length (thingspeak_url east west sun angle) < 256)%nat /\
  thingspeak_url east west sun angle = thingspeak_query east west sun angle.
Proof.
  pose proof (thingspeak_query_length east west sun angle) as Hlen.
  assert (Heq : thingspeak_url east west sun angle
                = thingspeak_query east west sun angle).
  { unfold thingspeak_url, snprintf. apply substring_whole.
    change (256 - 1)%nat with 255%nat. lia. }
  split; [exact Hlen | split; [rewrite Heq; lia | exact Heq]].
Qed.

Lemma digit_char_not_amp (d : Z) : 0 <= d < 10 -> digit_char d <> "&"%char.
Proof.
  intros Hd Heq. apply (f_equal N_of_ascii) in Heq. unfold digit_char in Heq.
  rewrite N_ascii_embedding in Heq by lia.
  change (N_of_ascii "&") with 38%N in Heq. lia.
Qed.

Lemma dec_digits_no_amp (fuel : nat) (n : Z) (acc : string) :
  string_forall (fun c => c <> "&"%char) acc ->
  string_forall (fun c => c <> "&"%char) (dec_digits fuel n acc).
Proof.
  revert n acc. induction fuel as [|fuel IH]; intros n acc Hacc; simpl;
    [exact Hacc|].
  pose proof (digit_char_not_amp (n mod 10) (Z.mod_pos_bound n 10 eq_refl)).
  destruct (n / 10 =? 0); [|apply IH]; simpl; auto.
Qed.

Lemma fmt_d_no_amp (z : Z) : string_forall (fun c => c <> "&"%char) (fmt_d z).
Proof.
  unfold fmt_d. destruct (z <? 0).
  - split; [discriminate | apply dec_digits_no_amp; exact I].
  - apply dec_digits_no_amp; exact I.
Qed.

Lemma take_field_app (s rest : string) :
  string_forall (fun c => c <> "&"%char) s ->
  rest = EmptyString \/ (exists r, rest = String "&" r) ->
  take_field (s ++ rest) = (s, rest).
Proof.
  intros Hs Hrest. induction s as [|c s IH]; simpl.
  - destruct Hrest as [-> | [r ->]]; reflexivity.
  - destruct Hs as [Hc Hs].
    destruct (Ascii.eqb_spec c "&"); [contradiction|].
    rewrite (IH Hs). reflexivity.
Qed.

Lemma drop_prefix_app (p s : string) : drop_prefix p (p ++ s) = Some s.
Proof.
  induction p as [|c p IH]; simpl; [destruct s; reflexivity|].
  rewrite Ascii.eqb_refl. exact IH.
Qed.

Lemma decode_thingspeak_url (east west sun angle : Z) :
  Int.in_int east -> Int.in_int west -> Int.in_int sun -> Int.in_int angle ->
  decode_url (thingspeak_url east west sun angle)
  = Some (east, west, sun, angle).
Proof.
  intros He Hw Hs Ha.
  rewrite thingspeak_url_not_truncated.
  change (thingspeak_query east west sun angle)
    with ("http://api.thingspeak.com/update?api_key=JA0W2AWRBR5KH8ZF&field1="
          ++ (fmt_d east ++ ("&field2="
          ++ (fmt_d west ++ ("&field3="
          ++ (fmt_d sun ++ ("&field4=" ++ fmt_d angle)))))))%string.
  unfold decode_url.
  rewrite drop_prefix_app.
  rewrite (take_field_app (fmt_d east)) by (first [apply fmt_d_no_amp | right; eexists; reflexivity]).
  rewrite drop_prefix_app.
  rewrite (take_field_app (fmt_d west)) by (first [apply fmt_d_no_amp | right; eexists; reflexivity]).
  rewrite drop_prefix_app.
  rewrite (take_field_app (fmt_d sun)) by (first [apply fmt_d_no_amp | right; eexists; reflexivity]).
  rewrite drop_prefix_app.
  rewrite !fmt_d_value by assumption. reflexivity.
Qed.

(** X13: the URL of a telemetry record can be read back: a receiver that
    splits the query at its [&fieldN=] markers recovers the four [int]
    values that were sent, so two different records never share a URL. *)
Theorem thingspeak_url_round_trip (east west sun angle : Z) :
  Int.in_int east -> Int.in_int west -> Int.in_int sun -> Int.in_int angle ->
  decode_url (thingspeak_url east west sun angle)
  = Some (east, west, sun, angle) /\
  (forall east' west' sun' angle' : Z,
      Int.in_int east' -> Int.in_int west' ->
      Int.in_int sun' -> Int.in_int angle' ->
      thingspeak_url east west sun angle
      = thingspeak_url east' west' sun' angle' ->
      east = east' /\ west = west' /\ sun = sun' /\ angle = angle').
Proof.
  intros He Hw Hs Ha.
  pose proof (decode_thingspeak_url east west sun angle He Hw Hs Ha) as Hdec.
  split; [exact Hdec|].
  intros east' west' sun' angle' He' Hw' Hs' Ha' Heq.
  rewrite Heq in Hdec.
  rewrite (decode_thingspeak_url east' west' sun' angle' He' Hw' Hs' Ha') in Hdec.
  injection Hdec as -> -> -> ->. repeat split; reflexivity.
Qed.

Lemma thingspeak_url_round_trip_witness :
  decode_url (thingspeak_url 4095 0 SUN_EAST 30) = Some (4095, 0, SUN_EAST, 30).
Proof.
  apply (thingspeak_url_round_trip 4095 0 SUN_EAST 30);
    vm_compute; split; discriminate.
Defined.

(* ================================================================== *)
(** ** Further properties of the main loop of [app_main] *)

Lemma http_transfers_app (t1 t2 : list event) :
  http_transfers (t1 ++ t2) = (http_transfers t1 + http_transfers t2)%nat.
Proof.
  induction t1 as [|e t1 IH]; [reflexivity|].
  destruct e; simpl; rewrite IH; reflexivity.
Qed.

Lemma http_requests_app (t1 t2 : list event) :
  http_requests (t1 ++ t2) = http_requests t1 ++ http_requests t2.
Proof.
  induction t1 as [|e t1 IH]; [reflexivity|].
  destruct e; simpl; rewrite IH; reflexivity.
Qed.

(** What one iteration shows of actuation and telemetry. *)
Lemma control_cycle_observed (io : cycle_io) :
  (drivers_ok io /\
   result (control_cycle io) = Some tt /\
   actuator_commands (trace (control_cycle io)) = [cycle_duty io] /\
   http_transfers (trace (control_cycle io)) = 1%nat /\
   http_requests (trace (control_cycle io))
   = [(HTTP_METHOD_GET,
       thingspeak_url (adc_east_raw io) (adc_west_raw io)
         (cycle_sun_dir io) (cycle_tilt_angle io))] /\
   ~ In Abort (trace (control_cycle io))) \/
  (~ drivers_ok io /\
   result (control_cycle io) = None /\
   (List.length (actuator_commands (trace (control_cycle io))) <= 1)%nat /\
   http_transfers (trace (control_cycle io)) = 0%nat /\
   http_requests (trace (control_cycle io)) = [] /\
   exists t, trace (control_cycle io) = t ++ [Abort] /\ ~ In Abort t).
Proof.
  destruct (drivers_ok_dec io) as [Hok | Hbad].
  - left. split; [exact Hok|]. rewrite (control_cycle_drivers_ok io Hok).
    unfold trace, result. simpl fst. simpl snd.
    destruct (http_perform_ret io =? ESP_OK); simpl;
      repeat split; try reflexivity; intuition discriminate.
  - right. split; [exact Hbad|]. unfold drivers_ok in Hbad.
    destruct (Z.eq_dec (adc_east_ret io) ESP_OK) as [HE|HE];
      [|rewrite (control_cycle_east_read_fails io HE); simpl;
        repeat split; try reflexivity; try lia;
        exists [Printf "Loop running...\n" []; AdcOneshotRead LDR_EAST_CH];
        split; [reflexivity | simpl; intuition discriminate]].
    destruct (Z.eq_dec (adc_west_ret io) ESP_OK) as [HW|HW];
      [|rewrite (control_cycle_west_read_fails io HE HW); simpl;
        repeat split; try reflexivity; try lia;
        exists [Printf "Loop running...\n" []; AdcOneshotRead LDR_EAST_CH;
                AdcOneshotRead LDR_WEST_CH];
        split; [reflexivity | simpl; intuition discriminate]].
    destruct (Z.eq_dec (ledc_set_duty_ret io) ESP_OK) as [HS|HS];
      [|rewrite (control_cycle_set_duty_fails io HE HW HS); simpl;
        repeat split; try reflexivity; try lia;
        exists [Printf "Loop running...\n" []; AdcOneshotRead LDR_EAST_CH;
                AdcOneshotRead LDR_WEST_CH; LedcSetDuty (cycle_duty io)];
        split; [reflexivity | simpl; intuition discriminate]].
    destruct (Z.eq_dec (ledc_update_duty_ret io) ESP_OK) as [HU|HU];
      [|rewrite (control_cycle_update_duty_fails io HE HW HS HU); simpl;
        repeat split; try reflexivity; try lia;
        exists [Printf "Loop running...\n" []; AdcOneshotRead LDR_EAST_CH;
                AdcOneshotRead LDR_WEST_CH; LedcSetDuty (cycle_duty io);
                LedcUpdateDuty];
        split; [reflexivity | simpl; intuition discriminate]].
    tauto.
Qed.

Lemma app_main_loop_cons_trace (io : cycle_io) (rest : list cycle_io) :
  (drivers_ok io /\
   trace (app_main_loop (io :: rest))
   = trace (control_cycle io) ++ trace (app_main_loop rest) /\
   result (app_main_loop (io :: rest)) = result (app_main_loop rest)) \/
  (~ drivers_ok io /\
   trace (app_main_loop (io :: rest)) = trace (control_cycle io) /\
   result (app_main_loop (io :: rest)) = None).
Proof.
  destruct (drivers_ok_dec io) as [Hok | Hbad].
  - left. rewrite (app_main_loop_cons_ok io rest Hok). auto.
  - right. rewrite (app_main_loop_cons_aborts io rest Hbad). auto.
Qed.

(** X14: in every run of the main loop the telemetry never gets ahead of
    the actuation: a run that has not aborted has performed exactly one
    HTTP transfer per duty written, and an aborted run at most one duty
    write more than transfers. *)
Theorem telemetry_follows_actuation (ios : list cycle_io) :
  (result (app_main_loop ios) = Some tt ->
   http_transfers (trace (app_main_loop ios))
   = List.length (actuator_commands (trace (app_main_loop ios)))) /\
  (http_transfers (trace (app_main_loop ios))
   <= List.length (actuator_commands (trace (app_main_loop ios)))
   <= http_transfers (trace (app_main_loop ios)) + 1)%nat.
Proof.
  induction ios as [|io rest [IHsome IHle]]; [split; [reflexivity | simpl; lia]|].
  destruct (app_main_loop_cons_trace io rest)
    as [(Hok & Ht & Hr) | (Hbad & Ht & Hr)]; rewrite Ht, Hr;
    destruct (control_cycle_observed io)
      as [(Hok' & _ & Hcmd & Htr & _) | (Hbad' & _ & Hcmd & Htr & _)];
    try contradiction.
  - rewrite http_transfers_app, actuator_commands_app, length_app, Hcmd, Htr.
    simpl. split; [intros Hs; rewrite (IHsome Hs); reflexivity | lia].
  - rewrite Htr. split; [discriminate | lia].
Qed.

(** X15: while no converter read or PWM call fails, the loop keeps no
    state between iterations: the duties written are, in order, those of
    each iteration's own readings, and each iteration sends exactly one
    GET request built from its own readings. *)
Theorem app_main_loop_stateless (ios : list cycle_io) :
  Forall drivers_ok ios ->
  result (app_main_loop ios) = Some tt /\
  actuator_commands (trace (app_main_loop ios)) = map cycle_duty ios /\
  http_requests (trace (app_main_loop ios))
  = map (fun io =>
           (HTTP_METHOD_GET,
            thingspeak_url (adc_east_raw io) (adc_west_raw io)
              (cycle_sun_dir io) (cycle_tilt_angle io))) ios /\
  http_transfers (trace (app_main_loop ios)) = List.length ios.
Proof.
  induction 1 as [|io rest Hok _ (IHr & IHc & IHq & IHt)];
    [repeat split; reflexivity|].
  destruct (app_main_loop_cons_trace io rest)
    as [(_ & Ht & Hr) | (Hbad & _)]; [rewrite Ht, Hr | contradiction].
  destruct (control_cycle_observed io)
    as [(_ & _ & Hcmd & Htr & Hreq & _) | (Hbad & _)]; [|contradiction].
  rewrite actuator_commands_app, http_requests_app, http_transfers_app.
  rewrite Hcmd, Htr, Hreq, IHc, IHq, IHt. repeat split; try reflexivity. exact IHr.
Qed.

Lemma app_main_loop_stateless_witness :
  actuator_commands
    (trace (app_main_loop
              [mk_cycle_io 0 2000 0 1500 0 0 0; mk_cycle_io 0 1000 0 1600 0 0 7]))
  = [334; 853].
Proof.
  assert (Hok : Forall drivers_ok
                  [mk_cycle_io 0 2000 0 1500 0 0 0;
                   mk_cycle_io 0 1000 0 1600 0 0 7])
    by (repeat constructor).
  exact (proj1 (proj2 (app_main_loop_stateless _ Hok))).
Defined.

(** X16: a run of the main loop aborts exactly when some iteration has a
    failing converter read or PWM call; an HTTP failure never ends it. *)
Theorem app_main_loop_aborts_iff (ios : list cycle_io) :
  (result (app_main_loop ios) = Some tt <-> Forall drivers_ok ios) /\
  (result (app_main_loop ios) = None
     <-> Exists (fun io => ~ drivers_ok io) ios).
Proof.
  induction ios as [|io rest [IHs IHn]].
  - split; split; intros H; try constructor; try reflexivity;
      try discriminate. inversion H.
  - destruct (app_main_loop_cons_trace io rest)
      as [(Hok & _ & Hr) | (Hbad & _ & Hr)]; rewrite Hr.
    + split; split.
      * intros Hs. constructor; [exact Hok | apply IHs, Hs].
      * intros Hall. inversion Hall; subst. apply IHs. assumption.
      * intros Hn. apply Exists_cons_tl, IHn, Hn.
      * intros Hex. inversion Hex; subst; [contradiction | apply IHn; assumption].
    + split; split.
      * discriminate.
      * intros Hall. inversion Hall; subst. contradiction.
      * intros _. apply Exists_cons_hd, Hbad.
      * reflexivity.
Qed.



(* ================================================================== *)
(** ** The start-up: [wifi_init], [adc_init_oneshot] and [app_main] *)

Lemma startup_bind_ret_l {A B : Type} (a : A) (f : A -> startup B) :
  startup_bind (startup_ret a) f = f a.
Proof. unfold startup_bind, startup_ret. destruct (f a). reflexivity. Qed.

Lemma startup_bind_ret_tt (m : startup unit) :
  startup_bind m (fun _ => startup_ret tt) = m.
Proof.
  destruct m as [t [[]|]]; unfold startup_bind, startup_ret;
    [rewrite app_nil_r|]; reflexivity.
Qed.

Lemma startup_bind_assoc {A B C : Type}
  (m : startup A) (f : A -> startup B) (g : B -> startup C) :
  startup_bind (startup_bind m f) g
  = startup_bind m (fun a => startup_bind (f a) g).
Proof.
  destruct m as [t [a|]]; unfold startup_bind; [|reflexivity].
  destruct (f a) as [t' [b|]]; [|reflexivity].
  destruct (g b) as [t'' r]. rewrite app_assoc. reflexivity.
Qed.

Section StartupFacts.

Variable answers : startup_call -> esp_err_t.

Lemma checked_call_ok (c : startup_call) :
  answers c = ESP_OK -> checked_call answers c = ([c], Some tt).
Proof. intros H. unfold checked_call. rewrite H. reflexivity. Qed.

Lemma checked_call_fails (c : startup_call) :
  answers c <> ESP_OK -> checked_call answers c = ([c; StartupAbort], None).
Proof.
  intros H. unfold checked_call.
  destruct (Z.eqb_spec (answers c) ESP_OK); [contradiction | reflexivity].
Qed.

Lemma run_steps_app (l1 l2 : list startup_step) :
  run_steps answers (l1 ++ l2)
  = startup_bind (run_steps answers l1) (fun _ => run_steps answers l2).
Proof.
  induction l1 as [|s l1 IH]; cbn [app run_steps].
  - rewrite startup_bind_ret_l. reflexivity.
  - destruct s; rewrite startup_bind_assoc, IH; reflexivity.
Qed.

Lemma run_steps_checked (c : startup_call) :
  run_steps answers [Checked c] = checked_call answers c.
Proof. cbn [run_steps]. apply startup_bind_ret_tt. Qed.

Lemma run_steps_unchecked (c : startup_call) :
  run_steps answers [Unchecked c] = startup_emit c.
Proof. reflexivity. Qed.

Lemma run_steps_all_ok (l : list startup_step) :
  Forall (step_ok answers) l ->
  run_steps answers l = (map step_call l, Some tt).
Proof.
  induction 1 as [|s l Hs _ IH]; [reflexivity|].
  destruct s as [c|c]; cbn [run_steps map step_call].
  - rewrite (checked_call_ok c Hs), IH. reflexivity.
  - rewrite IH. reflexivity.
Qed.

Lemma run_steps_first_failure (pre post : list startup_step) (c : startup_call) :
  Forall (step_ok answers) pre -> answers c <> ESP_OK ->
  run_steps answers (pre ++ Checked c :: post)
  = (map step_call pre ++ [c; StartupAbort], None).
Proof.
  intros Hpre Hc. rewrite run_steps_app, (run_steps_all_ok pre Hpre).
  cbn [run_steps]. rewrite (checked_call_fails c Hc). reflexivity.
Qed.

Lemma step_ok_dec (s : startup_step) :
  {step_ok answers s} + {~ step_ok answers s}.
Proof.
  destruct s as [c|c]; simpl; [apply Z.eq_dec | left; exact I].
Qed.

(** A straight line of calls either succeeds throughout or has a first
    checked call that fails. *)
Lemma run_steps_first_failure_exists (l : list startup_step) :
  Forall (step_ok answers) l \/
  exists pre c post,
    l = pre ++ Checked c :: post /\
    Forall (step_ok answers) pre /\ answers c <> ESP_OK.
Proof.
  induction l as [|s l [IH | (pre & c & post & -> & Hpre & Hc)]].
  - left. constructor.
  - destruct (step_ok_dec s) as [Hs | Hs].
    + left. constructor; assumption.
    + right. destruct s as [c|c]; [|exfalso; apply Hs; exact I].
      exists [], c, l. repeat split; [constructor | exact Hs].
  - destruct (step_ok_dec s) as [Hs | Hs].
    + right. exists (s :: pre), c, post.
      repeat split; [constructor; assumption | exact Hc].
    + right. destruct s as [c'|c']; [|exfalso; apply Hs; exact I].
      exists [], c', (pre ++ Checked c :: post).
      repeat split; [constructor | exact Hs].
Qed.

Lemma run_steps_result (l : list startup_step) :
  snd (run_steps answers l) = Some tt <-> Forall (step_ok answers) l.
Proof.
  split.
  - intros Hres.
    destruct (run_steps_first_failure_exists l)
      as [Hall | (pre & c & post & -> & Hpre & Hc)]; [exact Hall|].
    rewrite (run_steps_first_failure pre post c Hpre Hc) in Hres.
    discriminate Hres.
  - intros Hall. rewrite (run_steps_all_ok l Hall). reflexivity.
Qed.

Lemma wifi_init_run_steps :
  wifi_init answers = run_steps answers wifi_init_steps.
Proof.
  unfold wifi_init, wifi_init_steps. cbn [run_steps].
  rewrite startup_bind_ret_tt. reflexivity.
Qed.

Lemma adc_init_oneshot_run_steps :
  adc_init_oneshot answers = run_steps answers adc_init_oneshot_steps.
Proof.
  unfold adc_init_oneshot, adc_init_oneshot_steps. cbn [run_steps].
  rewrite startup_bind_ret_tt. reflexivity.
Qed.

Lemma app_main_setup_run_steps :
  app_main_setup answers = run_steps answers app_main_setup_steps.
Proof.
  unfold app_main_setup, app_main_setup_steps.
  rewrite adc_init_oneshot_run_steps, wifi_init_run_steps.
  cbn [app]. cbn [run_steps].
  rewrite !run_steps_app. cbn [run_steps].
  rewrite run_steps_app, run_steps_unchecked. reflexivity.
Qed.

End StartupFacts.

Ltac checked_step answers c :=
  destruct (Z.eq_dec (answers c) ESP_OK) as [?Hok | ?Hbad];
  [ rewrite (checked_call_ok answers c) by assumption
  | rewrite (checked_call_fails answers c) by assumption;
    cbn; intuition (discriminate || congruence) ].

(** X18: [wifi_init] stops at the first of its eight checked calls that
    does not answer ESP_OK: the calls before it were made in source order,
    none after it is, and the process aborts.  It returns exactly when all
    eight succeed, and [esp_wifi_connect] is attempted exactly when the
    seven checked calls before it succeeded. *)
Theorem wifi_init_fail_fast (answers : startup_call -> esp_err_t) :
  (snd (wifi_init answers) = Some tt
     <-> Forall (step_ok answers) wifi_init_steps) /\
  (Forall (step_ok answers) wifi_init_steps ->
   fst (wifi_init answers)
   = [NvsFlashInit; EspNetifInit; EspEventLoopCreateDefault;
      EspNetifCreateDefaultWifiSta; EspWifiInit; EspWifiSetMode WIFI_MODE_STA;
      EspWifiSetConfig WIFI_IF_STA WIFI_SSID WIFI_PASS;
      EspWifiStart; EspWifiConnect]) /\
  (forall pre c post,
      wifi_init_steps = pre ++ Checked c :: post ->
      Forall (step_ok answers) pre -> answers c <> ESP_OK ->
      wifi_init answers = (map step_call pre ++ [c; StartupAbort], None)) /\
  (In EspWifiConnect (fst (wifi_init answers))
     <-> answers NvsFlashInit = ESP_OK /\ answers EspNetifInit = ESP_OK /\
         answers EspEventLoopCreateDefault = ESP_OK /\
         answers EspWifiInit = ESP_OK /\
         answers (EspWifiSetMode WIFI_MODE_STA) = ESP_OK /\
         answers (EspWifiSetConfig WIFI_IF_STA WIFI_SSID WIFI_PASS) = ESP_OK /\
         answers EspWifiStart = ESP_OK).
Proof.
  split; [rewrite wifi_init_run_steps; apply run_steps_result|].
  split; [intros Hall; rewrite wifi_init_run_steps,
            (run_steps_all_ok answers _ Hall); reflexivity|].
  split; [intros pre c post Hsplit Hpre Hc;
          rewrite wifi_init_run_steps, Hsplit;
          apply run_steps_first_failure; assumption|].
  unfold wifi_init.
  checked_step answers NvsFlashInit.
  checked_step answers EspNetifInit.
  checked_step answers EspEventLoopCreateDefault.
  checked_step answers EspWifiInit.
  checked_step answers (EspWifiSetMode WIFI_MODE_STA).
  checked_step answers (EspWifiSetConfig WIFI_IF_STA WIFI_SSID WIFI_PASS).
  checked_step answers EspWifiStart.
  unfold checked_call.
  destruct (answers EspWifiConnect =? ESP_OK); cbn; intuition.
Qed.

(** A final unchecked call that occurs nowhere before is made exactly
    when every step before it succeeds. *)
Lemma run_steps_reaches_last (answers : startup_call -> esp_err_t)
  (l0 : list startup_step) (d : startup_call) :
  ~ In d (map step_call l0) -> d <> StartupAbort ->
  (In d (fst (run_steps answers (l0 ++ [Unchecked d])))
     <-> Forall (step_ok answers) l0).
Proof.
  intros Hfresh Hd. split.
  - intros Hin.
    destruct (run_steps_first_failure_exists answers l0)
      as [Hall | (pre & c & post & Hsplit & Hpre & Hc)]; [exact Hall|].
    exfalso. subst l0. rewrite <- app_assoc in Hin. cbn [app] in Hin.
    rewrite (run_steps_first_failure answers pre _ c Hpre Hc) in Hin.
    cbn [fst] in Hin. apply in_app_iff in Hin.
    rewrite map_app, in_app_iff in Hfresh. cbn in Hfresh, Hin.
    intuition congruence.
  - intros Hall. rewrite run_steps_app, (run_steps_all_ok answers l0 Hall).
    cbn. apply in_app_iff. right. left. reflexivity.
Qed.

(** X19: the start-up of [app_main] (PWM timer and channel,
    [adc_init_oneshot], [wifi_init]) makes its calls in source order and
    aborts at the first of the thirteen checked calls that fails, making
    no later call; it reaches the 5000 ms settle delay exactly when all
    thirteen succeed. *)
Theorem app_main_setup_fail_fast (answers : startup_call -> esp_err_t) :
  (snd (app_main_setup answers) = Some tt
     <-> Forall (step_ok answers) app_main_setup_steps) /\
  (Forall (step_ok answers) app_main_setup_steps ->
   fst (app_main_setup answers) = map step_call app_main_setup_steps) /\
  (forall pre c post,
      app_main_setup_steps = pre ++ Checked c :: post ->
      Forall (step_ok answers) pre -> answers c <> ESP_OK ->
      app_main_setup answers = (map step_call pre ++ [c; StartupAbort], None)) /\
  (In (StartupDelay 5000) (fst (app_main_setup answers))
     <-> Forall (step_ok answers) app_main_setup_steps) /\
  List.length (filter (fun s => match s with Checked _ => true | _ => false end)
                 app_main_setup_steps) = 13%nat.
Proof.
  rewrite app_main_setup_run_steps.
  split; [apply run_steps_result|].
  split; [intros Hall; rewrite (run_steps_all_ok answers _ Hall); reflexivity|].
  split; [intros pre c post Hsplit Hpre Hc; rewrite Hsplit;
          apply run_steps_first_failure; assumption|].
  split; [|reflexivity].
  change app_main_setup_steps
    with (removelast app_main_setup_steps ++ [Unchecked (StartupDelay 5000)]).
  rewrite run_steps_reaches_last.
  - split; intros Hall.
    + apply Forall_app. split; [exact Hall | repeat constructor].
    + apply Forall_app in Hall. tauto.
  - cbn. intuition discriminate.
  - discriminate.
Qed.

Lemma loop_events_startup (t : list startup_call) (t' : list event) :
  loop_events (map inl t ++ map inr t') = t'.
Proof.
  induction t as [|c t IH]; cbn [map app loop_events]; [|exact IH].
  induction t' as [|e t' IH']; cbn [map loop_events]; [|rewrite IH'];
    reflexivity.
Qed.

(** X20: [app_main] enters its loop only after a complete start-up: when
    all thirteen checked calls succeed the trace is the sixteen start-up
    calls followed by the events of the loop; otherwise the process has
    aborted without a single converter read, duty write or HTTP request,
    whatever the drivers would have answered in the loop. *)
Theorem app_main_loop_only_after_startup
  (answers : startup_call -> esp_err_t) (ios : list cycle_io) :
  (Forall (step_ok answers) app_main_setup_steps ->
   app_main answers ios
   = (map inl (map step_call app_main_setup_steps)
        ++ map inr (trace (app_main_loop ios)),
      result (app_main_loop ios))) /\
  (~ Forall (step_ok answers) app_main_setup_steps ->
   loop_events (fst (app_main answers ios)) = [] /\
   snd (app_main answers ios) = None /\
   app_main answers ios = app_main answers []) /\
  (loop_events (fst (app_main answers ios)) = [] \/
   loop_events (fst (app_main answers ios)) = trace (app_main_loop ios)) /\
  List.length app_main_setup_steps = 16%nat.
Proof.
  assert (Hok : Forall (step_ok answers) app_main_setup_steps ->
                app_main answers ios
                = (map inl (map step_call app_main_setup_steps)
                     ++ map inr (trace (app_main_loop ios)),
                   result (app_main_loop ios))).
  { intros Hall. unfold app_main.
    rewrite app_main_setup_run_steps, (run_steps_all_ok answers _ Hall).
    destruct (app_main_loop ios) as [t' r]. reflexivity. }
  assert (Hbad : ~ Forall (step_ok answers) app_main_setup_steps ->
                 exists t, forall ios',
                   app_main answers ios' = (map inl t, None)).
  { intros Hnot.
    destruct (run_steps_first_failure_exists answers app_main_setup_steps)
      as [Hall | (pre & c & post & Hsplit & Hpre & Hc)]; [contradiction|].
    exists (map step_call pre ++ [c; StartupAbort]). intros ios'.
    unfold app_main. rewrite app_main_setup_run_steps, Hsplit.
    rewrite (run_steps_first_failure answers pre post c Hpre Hc). reflexivity. }
  split; [exact Hok|].
  split.
  - intros Hnot. destruct (Hbad Hnot) as (t & Ht).
    rewrite (Ht ios), (Ht []). cbn [fst snd].
    pose proof (loop_events_startup t []) as Hl.
    cbn [map] in Hl. rewrite app_nil_r in Hl. auto.
  - split; [|reflexivity].
    destruct (Forall_dec (step_ok answers) (step_ok_dec answers)
                app_main_setup_steps) as [Hall | Hnot].
    + right. rewrite (Hok Hall). cbn [fst]. apply loop_events_startup.
    + left. destruct (Hbad Hnot) as (t & Ht). rewrite (Ht ios). cbn [fst].
      pose proof (loop_events_startup t []) as Hl.
      cbn [map] in Hl. rewrite app_nil_r in Hl. exact Hl.
Qed.

Lemma http_cleanups_app (t1 t2 : list event) :
  http_cleanups (t1 ++ t2) = (http_cleanups t1 + http_cleanups t2)%nat.
Proof.
  induction t1 as [|e t1 IH]; [reflexivity|].
  destruct e; simpl; rewrite IH; reflexivity.
Qed.

Lemma control_cycle_http_cleanups (io : cycle_io) :
  http_cleanups (trace (control_cycle io))
  = http_transfers (trace (control_cycle io)) /\
  List.length (http_requests (trace (control_cycle io)))
  = http_transfers (trace (control_cycle io)).
Proof.
  destruct (drivers_ok_dec io) as [Hok | Hbad].
  - rewrite (control_cycle_drivers_ok io Hok). cbn.
    destruct (http_perform_ret io =? ESP_OK); split; reflexivity.
  - unfold drivers_ok in Hbad.
    destruct (Z.eq_dec (adc_east_ret io) ESP_OK) as [HE|HE];
      [|rewrite (control_cycle_east_read_fails io HE); split; reflexivity].
    destruct (Z.eq_dec (adc_west_ret io) ESP_OK) as [HW|HW];
      [|rewrite (control_cycle_west_read_fails io HE HW); split; reflexivity].
    destruct (Z.eq_dec (ledc_set_duty_ret io) ESP_OK) as [HS|HS];
      [|rewrite (control_cycle_set_duty_fails io HE HW HS); split; reflexivity].
    destruct (Z.eq_dec (ledc_update_duty_ret io) ESP_OK) as [HU|HU];
      [|rewrite (control_cycle_update_duty_fails io HE HW HS HU);
        split; reflexivity].
    tauto.
Qed.

(** X21: the HTTP client is always released: in every run of the main
    loop, whether transfers succeed or fail and whether the run aborts or
    not, there are as many calls of [esp_http_client_cleanup] and of
    [esp_http_client_perform] as of [esp_http_client_init]. *)
Theorem http_client_always_cleaned_up (ios : list cycle_io) :
  List.length (http_requests (trace (app_main_loop ios)))
  = http_transfers (trace (app_main_loop ios)) /\
  http_cleanups (trace (app_main_loop ios))
  = http_transfers (trace (app_main_loop ios)).
Proof.
  induction ios as [|io rest [IHq IHc]]; [split; reflexivity|].
  destruct (control_cycle_http_cleanups io) as [Hc Hq].
  destruct (app_main_loop_cons_trace io rest)
    as [(_ & Ht & _) | (_ & Ht & _)]; rewrite Ht.
  - rewrite http_requests_app, http_transfers_app, http_cleanups_app, length_app.
    rewrite Hc, Hq, IHq, IHc. split; reflexivity.
  - split; [exact Hq | exact Hc].
Qed.
